(** * SenseLink DataController: the two connection managers

    A shallow embedding of [DataController.py]: the Home Assistant websocket
    client ([HASSController]) and the MQTT client ([MQTTController], with its
    [MQTTTopic] registrations), and the properties of their message dispatch,
    session assembly, teardown and reconnection.

    Python values are modelled as far as the handlers inspect them; effects
    (frames sent, data-source callbacks, log records, sleeps, connection
    attempts) are recorded in a chronological trace; exceptions are an
    explicit outcome.  Class-level attributes, which every instance shares,
    live in an explicit store. *)

From Stdlib Require Import String Ascii ZArith List Bool Lia PeanoNat.
From Stdlib Require Import Floats.SpecFloat.
Import ListNotations.
Open Scope string_scope.
Open Scope list_scope.

Set Implicit Arguments.
Set Warnings "-register-all".

(* ================================================================= *)
(** ** Python values and the operators the handlers apply to them *)

Module Py.

(** What [json.loads] returns: [None], [bool], [int], [float], [str],
    [list], and [dict] with string keys (an association list; lookup takes
    the first binding of a key). *)
Inductive value : Type :=
| JNull
| JBool (b : bool)
| JInt (n : Z)
| JFloat (f : spec_float)
| JStr (s : string)
| JList (items : list value)
| JDict (items : list (string * value)).

(** The exception classes that occur in the module. *)
Inductive exn : Type :=
| JSONDecodeError          (* json.loads on text that is not JSON *)
| TypeError
| KeyError
| AttributeError
| ConnectionClosed         (* websockets.exceptions.ConnectionClosed *)
| InvalidHandshake         (* a WebSocketException that is not ConnectionClosed *)
| gaierror                 (* socket.gaierror, an OSError *)
| ConnectionRefusedError   (* an OSError that is not gaierror *)
| MqttError                (* asyncio_mqtt.MqttError *)
| CancelledError.

Definition is_ConnectionClosed (e : exn) : bool :=
  match e with ConnectionClosed => true | _ => false end.

(** [ConnectionClosed] is a subclass of [WebSocketException]. *)
Definition is_WebSocketException (e : exn) : bool :=
  match e with ConnectionClosed | InvalidHandshake => true | _ => false end.

Definition is_gaierror (e : exn) : bool :=
  match e with gaierror => true | _ => false end.

Definition is_MqttError (e : exn) : bool :=
  match e with MqttError => true | _ => false end.

(** The value of an expression: a result or a raised exception. *)
Inductive res (A : Type) : Type :=
| Ok (a : A)
| Err (e : exn).
Arguments Ok {A} a.
Arguments Err {A} e.

Fixpoint dict_get (k : string) (d : list (string * value)) : option value :=
  match d with
  | [] => None
  | (k', v) :: rest => if String.eqb k k' then Some v else dict_get k rest
  end.

Definition dict_mem (k : string) (d : list (string * value)) : bool :=
  match dict_get k d with Some _ => true | None => false end.

(** [v == s] for a string literal [s]. *)
Definition eq_str (v : value) (s : string) : bool :=
  match v with JStr t => String.eqb t s | _ => false end.

(** The exact value of a finite float compared with an integer. *)
Definition float_eq_Z (f : spec_float) (n : Z) : bool :=
  match f with
  | S754_zero _ => (n =? 0)%Z
  | S754_finite s m e =>
      let v := if s then Z.neg m else Z.pos m in
      if (0 <=? e)%Z then (v * 2 ^ e =? n)%Z
      else (v =? n * 2 ^ (- e))%Z
  | _ => false
  end.

(** [v == n] for an integer [n]: Python compares numbers by value, so the
    float [1.0] and the bool [True] both equal [1]. *)
Definition eq_int (v : value) (n : Z) : bool :=
  match v with
  | JInt m => (m =? n)%Z
  | JBool b => ((if b then 1 else 0) =? n)%Z
  | JFloat f => float_eq_Z f n
  | _ => false
  end.

(** Truth value, as [not v] and [if v] compute it. *)
Definition truthy (v : value) : bool :=
  match v with
  | JNull => false
  | JBool b => b
  | JInt n => negb (n =? 0)%Z
  | JFloat (S754_zero _) => false
  | JFloat _ => true
  | JStr s => negb (String.eqb s "")
  | JList l => match l with [] => false | _ => true end
  | JDict d => match d with [] => false | _ => true end
  end.

Definition is_substring (s t : string) : bool :=
  match String.index 0 s t with Some _ => true | None => false end.

(** [k in v] for a string [k]: key test on a dict, element test on a list,
    substring test on a str; the other types are not containers. *)
Definition contains (k : string) (v : value) : res bool :=
  match v with
  | JDict d => Ok (dict_mem k d)
  | JList l => Ok (existsb (fun x => eq_str x k) l)
  | JStr s => Ok (is_substring k s)
  | _ => Err TypeError
  end.

(** [v[k]] for a string [k]: only a dict can be indexed by a string. *)
Definition getitem (v : value) (k : string) : res value :=
  match v with
  | JDict d => match dict_get k d with Some x => Ok x | None => Err KeyError end
  | _ => Err TypeError
  end.

(** [v.get(k)]: a dict method; a missing key gives [None]. *)
Definition get (v : value) (k : string) : res value :=
  match v with
  | JDict d => match dict_get k d with Some x => Ok x | None => Ok JNull end
  | _ => Err AttributeError
  end.

Definition is_None (v : value) : bool :=
  match v with JNull => true | _ => false end.

Fixpoint chars (s : string) : list value :=
  match s with
  | EmptyString => []
  | String c rest => JStr (String c EmptyString) :: chars rest
  end.

(** What [for x in v] iterates over: the items of a list, the keys of a
    dict, the characters of a str. *)
Definition iter (v : value) : res (list value) :=
  match v with
  | JList l => Ok l
  | JDict d => Ok (map (fun kv => JStr (fst kv)) d)
  | JStr s => Ok (chars s)
  | _ => Err TypeError
  end.

(** *** [dpath.util.get] on a slash-separated path

    The third-party [dpath] library is modelled by what it documents:
    [get(obj, 'a/b')] walks nested containers along the segments of the
    path, so that it is [obj['a']['b']], and raises [KeyError] when the
    path does not exist.  A segment that is not a numeral selects a dict
    key; [None] stands for the [KeyError]. *)
Fixpoint split_on (sep : ascii) (s : string) (cur : string) : list string :=
  match s with
  | EmptyString => [cur]
  | String c rest =>
      if Ascii.eqb c sep then cur :: split_on sep rest ""
      else split_on sep rest (cur ++ String c EmptyString)
  end.

Definition segments (glob : string) : list string :=
  split_on "/"%char glob "".

Fixpoint walk (obj : value) (path : list string) : option value :=
  match path with
  | [] => Some obj
  | k :: rest =>
      match obj with
      | JDict d => match dict_get k d with
                   | Some v => walk v rest
                   | None => None
                   end
      | _ => None
      end
  end.

Definition dpath_get (obj : value) (glob : string) : option value :=
  walk obj (segments glob).

(** [safekey(d, keypath, default=None)]. *)
Definition safekey (d : value) (keypath : string) : value :=
  match dpath_get d keypath with
  | Some val => val
  | None => JNull
  end.

End Py.

(* ================================================================= *)
(** ** What both clients share *)

(** A handler is a coroutine function that a data source supplies; the
    model knows it by name. *)
Definition handler : Type := string.

(** Data sources are external collaborators.  The websocket client only
    calls their two parse callbacks, which the model records as events and
    takes to return; the MQTT client asks them for the (topic, handler)
    pairs they declare. *)
Record DataSource : Type := {
  ds_name : string;
  ds_declares : list (string * handler)
}.

(** How a coroutine ends: it returns, it raises, or it stays suspended
    forever in an await that never completes. *)
Inductive outcome (A : Type) : Type :=
| Return (a : A)
| Raise (e : Py.exn)
| Blocked.
Arguments Return {A} a.
Arguments Raise {A} e.
Arguments Blocked {A}.

Inductive level : Type := DEBUG | INFO | ERROR.

(** How a client task stands when the model stops: it died of an exception
    nobody caught, it hangs in an await, or the input describes no further
    connection attempt for it (the task is alive and about to connect). *)
Inductive task_end : Type :=
| Died (e : Py.exn)
| Suspended
| Horizon.

(* ================================================================= *)
(** ** HASSController *)

Module HASS.
Import Py.

(** Class attributes [event_rq_id = 1] and [bulk_rq_id = 2]. *)
Definition event_rq_id : Z := 1.
Definition bulk_rq_id : Z := 2.

(** [data_sources] is the class-level list, filled from outside before the
    client starts and only read here. *)
Record HASSController : Type := {
  url : string;
  auth_token : string;
  data_sources : list DataSource
}.

Section Controller.

(** The wire format is the library's business: [json.loads] is a partial
    function from payloads to values ([None]: it raises [JSONDecodeError]),
    [json.dumps] a function from values to payloads. *)
Context {payload : Type}.
Variable json_loads : payload -> option value.
Variable json_dumps : value -> payload.

Inductive event : Type :=
| Send (p : payload)                                    (* ws.send(p) went out *)
| ParseIncremental (ds : DataSource) (data : value)     (* ds.parse_incremental_update(data) *)
| ParseBulk (ds : DataSource) (status : value)          (* ds.parse_bulk_update(status) *)
| Log (l : level) (msg : string)
| Connect (u : string)                                  (* websockets.connect(url) attempted *)
| Recv (p : payload)                                    (* websocket.recv() returned p *)
| Sleep (seconds : nat)                                 (* asyncio.sleep *)
| CreateTask                                            (* asyncio.create_task(self.client_handler()) *)
| Close.                                                (* the connection context is left *)

(** The trace so far and the connection: [sends_left = Some n] when the
    peer goes away after [n] more sends, [None] when it stays. *)
Record state : Type := {
  trace : list event;
  sends_left : option nat
}.

Definition M (A : Type) : Type := state -> outcome A * state.

Definition ret {A} (a : A) : M A := fun st => (Return a, st).

Definition bind {A B} (m : M A) (k : A -> M B) : M B := fun st =>
  match m st with
  | (Return a, st') => k a st'
  | (Raise e, st') => (Raise e, st')
  | (Blocked, st') => (Blocked, st')
  end.

Definition raise {A} (e : exn) : M A := fun st => (Raise e, st).

Definition lift {A} (r : res A) : M A :=
  match r with Ok a => ret a | Err e => raise e end.

Definition emit (e : event) : M unit := fun st =>
  (Return tt, {| trace := trace st ++ [e]; sends_left := sends_left st |}).

Definition log (l : level) (msg : string) : M unit := emit (Log l msg).

(** [await ws.send(p)]: raises [ConnectionClosed] once the peer is gone. *)
Definition ws_send (p : payload) : M unit := fun st =>
  match sends_left st with
  | Some O => (Raise ConnectionClosed, st)
  | Some (S n) => (Return tt, {| trace := trace st ++ [Send p]; sends_left := Some n |})
  | None => (Return tt, {| trace := trace st ++ [Send p]; sends_left := None |})
  end.

Notation "x <- m ;; k" := (bind m (fun x => k))
  (at level 61, m at next level, right associativity).
Notation "m ;;; k" := (bind m (fun _ => k))
  (at level 61, right associativity).

Fixpoint for_each {A} (xs : list A) (body : A -> M unit) : M unit :=
  match xs with
  | [] => ret tt
  | x :: rest => body x ;;; for_each rest body
  end.

(** ['type' in message and message['type'] == s]. *)
Definition type_is (message : value) (s : string) : res bool :=
  match contains "type" message with
  | Err e => Err e
  | Ok false => Ok false
  | Ok true =>
      match getitem message "type" with
      | Err e => Err e
      | Ok t => Ok (eq_str t s)
      end
  end.

(** ['type' in message and message['id'] == n]. *)
Definition id_is (message : value) (n : Z) : res bool :=
  match contains "type" message with
  | Err e => Err e
  | Ok false => Ok false
  | Ok true =>
      match getitem message "id" with
      | Err e => Err e
      | Ok i => Ok (eq_int i n)
      end
  end.

Definition auth_response (self : HASSController) : value :=
  JDict [("type", JStr "auth"); ("access_token", JStr (auth_token self))].

Definition subscribe_command : value :=
  JDict [("id", JInt event_rq_id); ("type", JStr "subscribe_events");
         ("event_type", JStr "state_changed")].

Definition get_states_command : value :=
  JDict [("id", JInt bulk_rq_id); ("type", JStr "get_states")].

(** The body of [on_message] once the payload is decoded. *)
Definition dispatch (self : HASSController) (message : value) : M unit :=
  b <- lift (type_is message "auth_required") ;;
  if b then
    log INFO "Authentication requested" ;;;
    ws_send (json_dumps (auth_response self))
  else
  b <- lift (type_is message "auth_invalid") ;;
  if b then
    log ERROR "Authentication failed"
  else
  b <- lift (type_is message "auth_ok") ;;
  if b then
    log INFO "Authentication successful" ;;;
    ws_send (json_dumps subscribe_command) ;;;
    log INFO "Event update request sent" ;;;
    ws_send (json_dumps get_states_command) ;;;
    log INFO "All states request sent"
  else
  b <- lift (id_is message event_rq_id) ;;
  if b then
    log DEBUG "Potential event update received" ;;;
    if negb (truthy (safekey message "event/data")) then ret tt
    else
      for_each (data_sources self) (fun ds =>
        ev <- lift (getitem message "event") ;;
        data <- lift (getitem ev "data") ;;
        emit (ParseIncremental ds data))
  else
  b <- lift (id_is message bulk_rq_id) ;;
  if b then
    log INFO "Bulk update received" ;;;
    r <- lift (get message "result") ;;
    if is_None r then ret tt
    else
      log DEBUG "Entity update received" ;;;
      bulk_update <- lift (iter r) ;;
      for_each bulk_update (fun status =>
        for_each (data_sources self) (fun ds => emit (ParseBulk ds status)))
  else
    log DEBUG "Unknown/unhandled message received".

(** [on_message(self, ws, message)]: decode, then classify. *)
Definition on_message (self : HASSController) (message : payload) : M unit :=
  match json_loads message with
  | None => raise JSONDecodeError
  | Some decoded => dispatch self decoded
  end.

(** *** The supervising loop

    What the server does is the input: every connection attempt either
    fails to connect or delivers some frames and then ends, with [recv]
    raising or never returning. *)
Inductive recv_end : Type :=
| RecvRaises (e : exn)
| RecvBlocks.

Record session : Type := {
  inbox : list payload;
  inbox_end : recv_end;
  peer_sends : option nat
}.

Inductive attempt : Type :=
| ConnectRaises (e : exn)
| Connected (s : session).

(** The [except ConnectionClosed] clause inside the receive loop, up to its
    [return False]. *)
Definition on_connection_closed : M unit :=
  log ERROR "Lost connection to websocket server" ;;;
  log INFO "Reconnecting in 10..." ;;;
  emit (Sleep 10) ;;;
  emit CreateTask.

(** [while True: try: recv, on_message; except ConnectionClosed: ...].
    The loop is left by [return False] (here [Return tt]), by an exception
    the clause does not catch, or never. *)
Fixpoint recv_loop (self : HASSController) (frames : list payload)
    (fin : recv_end) : M unit :=
  match frames with
  | [] =>
      match fin with
      | RecvBlocks => fun st => (Blocked, st)
      | RecvRaises e =>
          if is_ConnectionClosed e then on_connection_closed else raise e
      end
  | message :: rest => fun st =>
      match (emit (Recv message) ;;;
             log DEBUG "Received message" ;;;
             on_message self message) st with
      | (Return _, st') => recv_loop self rest fin st'
      | (Raise e, st') =>
          if is_ConnectionClosed e then on_connection_closed st'
          else (Raise e, st')
      | (Blocked, st') => (Blocked, st')
      end
  end.

(** The outer [except (WebSocketException, gaierror)] clause. *)
Definition unable_to_connect : list event :=
  [Log ERROR "Unable to connect to server";
   Log INFO "Attempting to reconnect in 10...";
   Sleep 10;
   CreateTask].

Definition caught_outside (e : exn) : bool :=
  is_WebSocketException e || is_gaierror e.

(** [client_handler]: each task consumes one attempt; a task created by
    [asyncio.create_task(self.client_handler())] goes on with the next. *)
Fixpoint client_handler (self : HASSController) (world : list attempt)
    (tr : list event) : task_end * list event :=
  match world with
  | [] => (Horizon, tr)
  | a :: later =>
      let tr0 := tr ++ [Log INFO "Starting websocket client"; Connect (url self)] in
      match a with
      | ConnectRaises e =>
          if caught_outside e
          then client_handler self later (tr0 ++ unable_to_connect)
          else (Died e, tr0)
      | Connected s =>
          match recv_loop self (inbox s) (inbox_end s)
                  {| trace := tr0; sends_left := peer_sends s |} with
          | (Return _, st) => client_handler self later (trace st ++ [Close])
          | (Raise e, st) =>
              if caught_outside e
              then client_handler self later (trace st ++ [Close] ++ unable_to_connect)
              else (Died e, trace st ++ [Close])
          | (Blocked, st) => (Suspended, trace st)
          end
      end
  end.

End Controller.

Notation "x <- m ;; k" := (bind m (fun x => k))
  (at level 61, m at next level, right associativity).
Notation "m ;;; k" := (bind m (fun _ => k))
  (at level 61, right associativity).

(** Projections of a trace. *)
Definition sent {payload} (tr : list (@event payload)) : list payload :=
  flat_map (fun e => match e with Send p => [p] | _ => [] end) tr.

Definition calls {payload} (tr : list (@event payload)) : list (@event payload) :=
  filter (fun e => match e with
                   | ParseIncremental _ _ | ParseBulk _ _ => true
                   | _ => false
                   end) tr.

Definition connects {payload} (tr : list (@event payload)) : nat :=
  length (filter (fun e => match e with Connect _ => true | _ => false end) tr).

Definition sleeps {payload} (tr : list (@event payload)) : list nat :=
  flat_map (fun e => match e with Sleep n => [n] | _ => [] end) tr.

(** *** Vocabulary of the statements below *)

(** The three types the handshake branches test for. *)
Definition auth_type (t : value) : bool :=
  eq_str t "auth_required" || eq_str t "auth_invalid" || eq_str t "auth_ok".

(** The connection takes [n] more sends. *)
Definition can_send (n : nat) (left : option nat) : Prop :=
  match left with None => True | Some k => n <= k end.

Definition after_sends (n : nat) (left : option nat) : option nat :=
  option_map (fun k => k - n) left.

(** A computation that comes back from every state. *)
Definition never_blocks {payload A : Type} (m : @M payload A) : Prop :=
  forall st, fst (m st) <> Blocked.

(** An attempt that ends in a transport failure the handlers name: the
    connection cannot be set up, or it is closed before any frame. *)
Definition transport_failure {payload : Type} (a : @attempt payload) : bool :=
  match a with
  | ConnectRaises e => caught_outside e
  | Connected s =>
      match inbox s, inbox_end s with
      | [], RecvRaises e => caught_outside e
      | _, _ => false
      end
  end.

(** The records for which a trace calls [parse_bulk_update] on the data
    source of a given name, in the order of the calls. *)
Definition bulk_for {payload : Type} (name : string) (tr : list (@event payload))
    : list value :=
  flat_map (fun e => match e with
                     | ParseBulk ds r =>
                         if String.eqb (ds_name ds) name then [r] else []
                     | _ => []
                     end) tr.

(** Kinds of events, for statements about what a frame can cause. *)
Definition log_or_send {payload : Type} (e : @event payload) : bool :=
  match e with Log _ _ | Send _ => true | _ => false end.

Definition log_or_incremental {payload : Type} (e : @event payload) : bool :=
  match e with Log _ _ | ParseIncremental _ _ => true | _ => false end.

Definition log_or_bulk {payload : Type} (e : @event payload) : bool :=
  match e with Log _ _ | ParseBulk _ _ => true | _ => false end.

(** The exceptions [on_message] lets out. *)
Definition message_error (e : exn) : bool :=
  match e with
  | JSONDecodeError | TypeError | KeyError | ConnectionClosed => true
  | _ => false
  end.

(** The tasks created and the connections left, counted in a trace. *)
Definition created_tasks {payload : Type} (tr : list (@event payload)) : nat :=
  length (filter (fun e => match e with CreateTask => true | _ => false end) tr).

Definition closes {payload : Type} (tr : list (@event payload)) : nat :=
  length (filter (fun e => match e with Close => true | _ => false end) tr).

(** What a computation adds to the trace, and how it can fail. *)
Definition causes {payload A : Type} (m : @M payload A)
    (P : list (@event payload) -> Prop) : Prop :=
  forall st,
    exists evs,
      trace (snd (m st)) = trace st ++ evs
      /\ P evs
      /\ (forall e, fst (m st) = Raise e -> message_error e = true).

(** The three things a frame can cause: log records only with requests
    going out (at most two), with calls of [parse_incremental_update], or
    with calls of [parse_bulk_update]. *)
Definition frame_effect {payload : Type} (evs : list (@event payload)) : Prop :=
  (length (sent evs) <= 2 /\ forallb log_or_send evs = true)
  \/ (sent evs = [] /\ forallb log_or_incremental evs = true)
  \/ (sent evs = [] /\ forallb log_or_bulk evs = true).

(** A transparent wire format for closed examples: a payload is the value
    it decodes to, or text that is not JSON. *)
Inductive wire : Type :=
| Json (v : value)
| Garbage (text : string).

Definition wire_loads (w : wire) : option value :=
  match w with Json v => Some v | Garbage _ => None end.

Definition wire_dumps (v : value) : wire := Json v.

End HASS.

(* ================================================================= *)
(** ** MQTTTopic and MQTTController *)

Module MQTT.
Import Py.

(** *** Objects, attributes and the class-level store *)

Definition loc : Type := nat.

(** The objects that end up in attribute slots and handler lists: a
    coroutine function, a reference to a list object, a string. *)
Inductive pyobj : Type :=
| Callable (h : handler)
| ListRef (l : loc)
| Str (s : string).

Fixpoint assoc {V : Type} (k : string) (d : list (string * V)) : option V :=
  match d with
  | [] => None
  | (k', v) :: rest => if String.eqb k k' then Some v else assoc k rest
  end.

(** An instance of [MQTTTopic]: its identity and its instance dictionary. *)
Record MQTTTopic : Type := {
  oid : nat;
  inst_dict : list (string * pyobj)
}.

(** The class body [handlers = []] creates one list when the module is
    imported, and the class namespace binds the name to it. *)
Definition handlers_loc : loc := 0.

Definition MQTTTopic_class : list (string * pyobj) :=
  [("handlers", ListRef handlers_loc)].

(** Attribute lookup: the instance dictionary first, then the class. *)
Definition getattr (o : MQTTTopic) (name : string) : option pyobj :=
  match assoc name (inst_dict o) with
  | Some a => Some a
  | None => assoc name MQTTTopic_class
  end.

Inductive task_state : Type := Running | Done | Cancelled.

(** An [asyncio.Task] running [hl(messages)]. *)
Record Task : Type := {
  coro : handler;
  stream : string;
  status : task_state
}.

(** [task.done()]. *)
Definition done (t : Task) : bool :=
  match status t with Running => false | _ => true end.

(** The list objects on the heap and the class attributes of
    [MQTTController]: [data_sources], [topics] (a dict, in insertion order)
    and [tasks].  No instance ever binds these names, so [self.topics] and
    [self.tasks] are these, for every instance. *)
Record Store : Type := {
  heap : list (list pyobj);
  next_oid : nat;
  data_sources : list DataSource;
  topics : list (string * MQTTTopic);
  tasks : list Task
}.

(** The store right after import, with the data sources filled in. *)
Definition initial_store (dss : list DataSource) : Store :=
  {| heap := [[]]; next_oid := 0; data_sources := dss; topics := []; tasks := [] |}.

Definition heap_get (h : list (list pyobj)) (l : loc) : list pyobj :=
  nth l h [].

Fixpoint heap_set (h : list (list pyobj)) (l : loc) (v : list pyobj) : list (list pyobj) :=
  match h, l with
  | [], _ => []
  | _ :: rest, O => v :: rest
  | x :: rest, S l' => x :: heap_set rest l' v
  end.

Record MQTTController : Type := {
  host : string;
  port : nat;
  username : option string;
  password : option string
}.

(** *** Effects *)

Inductive event : Type :=
| Connect (h : string) (p : nat)             (* the Client context is entered *)
| FilteredMessages (topic_string : string)   (* a filtered stream is opened *)
| CreateTask (h : handler) (topic_string : string)
| Subscribe (all_topics : list MQTTTopic)    (* client.subscribe(all_topics) *)
| Cancel (h : handler) (topic_string : string)  (* task.cancel() and await task *)
| CloseStream (topic_string : string)
| Disconnect
| Sleep (seconds : nat)
| Log (l : level) (msg : string).

(** What [push_async_callback] was given besides the callback. *)
Inductive arg : Type := TasksSet.

Inductive exit_item : Type :=
| AsyncCallback (args : list arg)     (* self.cancel_tasks, with these arguments *)
| ClientContext
| StreamContext (topic_string : string).

Record state : Type := {
  store : Store;
  trace : list event;
  stack : list exit_item               (* the AsyncExitStack, last pushed first *)
}.

Definition M (A : Type) : Type := state -> outcome A * state.

Definition ret {A} (a : A) : M A := fun st => (Return a, st).

Definition bind {A B} (m : M A) (k : A -> M B) : M B := fun st =>
  match m st with
  | (Return a, st') => k a st'
  | (Raise e, st') => (Raise e, st')
  | (Blocked, st') => (Blocked, st')
  end.

Definition raise {A} (e : exn) : M A := fun st => (Raise e, st).

Notation "x <- m ;; k" := (bind m (fun x => k))
  (at level 61, m at next level, right associativity).
Notation "m ;;; k" := (bind m (fun _ => k))
  (at level 61, right associativity).

Definition emit (e : event) : M unit := fun st =>
  (Return tt, {| store := store st; trace := trace st ++ [e]; stack := stack st |}).

Definition get_store : M Store := fun st => (Return (store st), st).

Definition put_store (s : Store) : M unit := fun st =>
  (Return tt, {| store := s; trace := trace st; stack := stack st |}).

Definition push (i : exit_item) : M unit := fun st =>
  (Return tt, {| store := store st; trace := trace st; stack := i :: stack st |}).

Fixpoint for_each {A} (xs : list A) (body : A -> M unit) : M unit :=
  match xs with
  | [] => ret tt
  | x :: rest => body x ;;; for_each rest body
  end.

Definition set_heap (h : list (list pyobj)) (s : Store) : Store :=
  {| heap := h; next_oid := next_oid s; data_sources := data_sources s;
     topics := topics s; tasks := tasks s |}.

Definition set_next_oid (n : nat) (s : Store) : Store :=
  {| heap := heap s; next_oid := n; data_sources := data_sources s;
     topics := topics s; tasks := tasks s |}.

Definition set_topics (t : list (string * MQTTTopic)) (s : Store) : Store :=
  {| heap := heap s; next_oid := next_oid s; data_sources := data_sources s;
     topics := t; tasks := tasks s |}.

Definition set_tasks (t : list Task) (s : Store) : Store :=
  {| heap := heap s; next_oid := next_oid s; data_sources := data_sources s;
     topics := topics s; tasks := t |}.

(** [o.name], any value. *)
Definition attr_of (o : MQTTTopic) (name : string) : M pyobj :=
  match getattr o name with
  | Some a => ret a
  | None => raise AttributeError
  end.

(** [o.name.append(x)]: only a list has [append]. *)
Definition attr_append (o : MQTTTopic) (name : string) (x : pyobj) : M unit :=
  a <- attr_of o name ;;
  match a with
  | ListRef l =>
      s <- get_store ;;
      put_store (set_heap (heap_set (heap s) l (heap_get (heap s) l ++ [x])) s)
  | _ => raise AttributeError
  end.

Fixpoint str_items (s : string) : list pyobj :=
  match s with
  | EmptyString => []
  | String c rest => Str (String c EmptyString) :: str_items rest
  end.

(** The items [for x in o.name] visits. *)
Definition attr_iter (o : MQTTTopic) (name : string) : M (list pyobj) :=
  a <- attr_of o name ;;
  match a with
  | ListRef l => s <- get_store ;; ret (heap_get (heap s) l)
  | Str t => ret (str_items t)
  | Callable _ => raise TypeError
  end.

(** *** MQTTTopic *)

(** [MQTTTopic.__init__(self, topic, handler)]:
    [self.topic = topic; self.handlers.append(handler)]. *)
Definition MQTTTopic_init (topic : string) (h : handler) : M MQTTTopic :=
  s <- get_store ;;
  let self := {| oid := next_oid s; inst_dict := [("topic", Str topic)] |} in
  put_store (set_next_oid (S (next_oid s)) s) ;;;
  attr_append self "handlers" (Callable h) ;;;
  ret self.

(** Modelled from the spec: the data sources' [handlers()] is not in the
    module.  It returns the sequence of (topic, handler) pairs the data
    source declares, each one an [MQTTTopic(topic, handler)] built when
    [handlers()] is called. *)
Fixpoint construct_all (declared : list (string * handler)) : M (list MQTTTopic) :=
  match declared with
  | [] => ret []
  | (t, h) :: rest =>
      o <- MQTTTopic_init t h ;;
      os <- construct_all rest ;;
      ret (o :: os)
  end.

Definition ds_handlers (ds : DataSource) : M (list MQTTTopic) :=
  construct_all (ds_declares ds).

(** *** MQTTController.listen *)

(** What the broker and the listeners do in one session: whether
    connecting and subscribing raise, how [asyncio.gather] ends, and which
    listener tasks have finished by then. *)
Inductive gather_end : Type :=
| GatherReturns
| GatherRaises (e : exn)
| GatherBlocks.

Record session : Type := {
  connect_raises : option exn;
  subscribe_raises : option exn;
  gather_ends : gather_end;
  finished : handler -> string -> bool
}.

Definition may_raise (r : option exn) : M unit :=
  match r with Some e => raise e | None => ret tt end.

(** The body of the inner loop, for one [ds_hl]. *)
Definition register (ds_hl : MQTTTopic) : M unit :=
  k <- attr_of ds_hl "topic" ;;
  match k with
  | Str key =>
      s <- get_store ;;
      match assoc key (topics s) with
      | Some topic =>
          (* topic = self.topics[ds_hl.topic]; topic.handlers.append(ds_hl.handlers) *)
          x <- attr_of ds_hl "handlers" ;;
          attr_append topic "handlers" x
      | None =>
          (* self.topics[ds_hl.topic] = ds_hl *)
          put_store (set_topics (topics s ++ [(key, ds_hl)]) s)
      end
  | _ => raise TypeError
  end.

(** [for ds in self.data_sources: for ds_hl in ds.handlers(): ...]. *)
Definition assemble : M unit :=
  s <- get_store ;;
  for_each (data_sources s) (fun ds =>
    ds_handlers <- ds_handlers ds ;;
    for_each ds_handlers register).

(** [task = asyncio.create_task(hl(messages)); self.tasks.add(task)]:
    calling [hl] comes first, and only a coroutine function can be called. *)
Definition create_task (hl : pyobj) (messages : string) : M unit :=
  match hl with
  | Callable h =>
      emit (CreateTask h messages) ;;;
      s <- get_store ;;
      put_store (set_tasks (tasks s ++ [{| coro := h; stream := messages; status := Running |}]) s)
  | _ => raise TypeError
  end.

(** [for topic_string, topic in self.topics.items(): ...], with the local
    [all_topics] as accumulator. *)
Fixpoint open_topics (items : list (string * MQTTTopic))
    (all_topics : list MQTTTopic) : M (list MQTTTopic) :=
  match items with
  | [] => ret all_topics
  | (topic_string, topic) :: rest =>
      emit (FilteredMessages topic_string) ;;;
      push (StreamContext topic_string) ;;;
      hls <- attr_iter topic "handlers" ;;
      for_each hls (fun hl => create_task hl topic_string) ;;;
      open_topics rest (all_topics ++ [topic])
  end.

Definition finish (w : session) (all : bool) (t : Task) : Task :=
  match status t with
  | Running =>
      if all || finished w (coro t) (stream t)
      then {| coro := coro t; stream := stream t; status := Done |}
      else t
  | _ => t
  end.

(** [await asyncio.gather] over [self.tasks]: with no task it returns at once;
    otherwise it returns when all tasks are done, raises the first
    exception of one, or never ends. *)
Definition gather (w : session) : M unit :=
  s <- get_store ;;
  match tasks s with
  | [] => ret tt
  | _ =>
      match gather_ends w with
      | GatherReturns => put_store (set_tasks (map (finish w true) (tasks s)) s)
      | GatherRaises e =>
          put_store (set_tasks (map (finish w false) (tasks s)) s) ;;; raise e
      | GatherBlocks => fun st => (Blocked, st)
      end
  end.

(** The block inside [async with AsyncExitStack() as stack]. *)
Definition listen_body (self : MQTTController) (w : session) : M unit :=
  push (AsyncCallback [TasksSet]) ;;;
  emit (Connect (host self) (port self)) ;;;
  may_raise (connect_raises w) ;;;
  push ClientContext ;;;
  assemble ;;;
  s <- get_store ;;
  all_topics <- open_topics (topics s) [] ;;
  emit (Subscribe all_topics) ;;;
  may_raise (subscribe_raises w) ;;;
  gather w.

(** The body of [cancel_tasks]: every task that is not done is cancelled
    and awaited, the [CancelledError] it raises being dropped. *)
Definition cancelled (t : Task) : Task :=
  if done t then t
  else {| coro := coro t; stream := stream t; status := Cancelled |}.

Definition cancel_events (ts : list Task) : list event :=
  flat_map (fun t => if done t then [] else [Cancel (coro t) (stream t)]) ts.

Definition cancel_tasks_body : M unit := fun st =>
  (Return tt,
   {| store := set_tasks (map cancelled (tasks (store st))) (store st);
      trace := trace st ++ cancel_events (tasks (store st));
      stack := stack st |}).

(** [async def cancel_tasks(self)], called with the pushed arguments:
    the method has no parameter besides [self], so a call with further
    positional arguments raises [TypeError] before the body runs. *)
Definition cancel_tasks (args : list arg) : M unit :=
  match args with
  | [] => cancel_tasks_body
  | _ :: _ => raise TypeError
  end.

Definition exit_one (i : exit_item) : M unit :=
  match i with
  | AsyncCallback args => cancel_tasks args
  | ClientContext => emit Disconnect
  | StreamContext t => emit (CloseStream t)
  end.

(** [AsyncExitStack.__aexit__]: the entries run last pushed first; an
    exception raised by one replaces the pending one and the rest still
    run. *)
Fixpoint unwind (items : list exit_item) (pending : option exn)
    (st : state) : option exn * state :=
  match items with
  | [] => (pending, st)
  | i :: rest =>
      match exit_one i st with
      | (Raise e, st') => unwind rest (Some e) st'
      | (_, st') => unwind rest pending st'
      end
  end.

Definition clear_stack (st : state) : state :=
  {| store := store st; trace := trace st; stack := [] |}.

(** [listen]: the block, then the exit stack on every way out of it. *)
Definition listen (self : MQTTController) (w : session) : M unit := fun st =>
  match listen_body self w (clear_stack st) with
  | (Blocked, st1) => (Blocked, st1)
  | (r, st1) =>
      let pending := match r with Raise e => Some e | _ => None end in
      match unwind (stack st1) pending (clear_stack st1) with
      | (Some e, st2) => (Raise e, st2)
      | (None, st2) => (Return tt, st2)
      end
  end.

(** *** MQTTController.client_handler *)

Definition reconnect_interval : nat := 5.

(** [while True: try: await self.listen() / except MqttError: log /
    finally: await asyncio.sleep(reconnect_interval)]. *)
Fixpoint retry_loop (self : MQTTController) (world : list session)
    (st : state) : task_end * state :=
  match world with
  | [] => (Horizon, st)
  | w :: later =>
      match listen self w st with
      | (Return _, st1) =>
          retry_loop self later (snd (emit (Sleep reconnect_interval) st1))
      | (Raise e, st1) =>
          if is_MqttError e
          then retry_loop self later
                 (snd ((emit (Log ERROR "Disconnected from MQTT broker, reconnecting") ;;;
                        emit (Sleep reconnect_interval)) st1))
          else (Died e, snd (emit (Sleep reconnect_interval) st1))
      | (Blocked, st1) => (Suspended, st1)
      end
  end.

Definition client_handler (self : MQTTController) (world : list session)
    (st : state) : task_end * state :=
  retry_loop self world (snd (emit (Log INFO "Starting MQTT client") st)).

(** Projections of a trace. *)
Definition connects (tr : list event) : nat :=
  length (filter (fun e => match e with Connect _ _ => true | _ => false end) tr).

Definition subscriptions (tr : list event) : list (list MQTTTopic) :=
  flat_map (fun e => match e with Subscribe ts => [ts] | _ => [] end) tr.

Definition cancellations (tr : list event) : nat :=
  length (filter (fun e => match e with Cancel _ _ => true | _ => false end) tr).

Definition created (tr : list event) : list (handler * string) :=
  flat_map (fun e => match e with CreateTask h t => [(h, t)] | _ => [] end) tr.

Definition streams (tr : list event) : list string :=
  flat_map (fun e => match e with FilteredMessages t => [t] | _ => [] end) tr.

Definition start (s : Store) : state :=
  {| store := s; trace := []; stack := [] |}.

(** *** Vocabulary of the statements below *)

(** Events other than cancellations, and exit-stack entries other than
    callbacks. *)
Definition quiet (evs : list event) : bool :=
  forallb (fun e => match e with Cancel _ _ => false | _ => true end) evs.

Definition contexts (items : list exit_item) : bool :=
  forallb (fun i => match i with AsyncCallback _ => false | _ => true end) items.

(** What the block of [listen] may do to the state, step by step: push
    contexts on the exit stack, add events that cancel nothing, and leave
    every registration of the topic map and the data sources in place. *)
Record grows (st st' : state) : Prop := {
  grows_stack :
    exists items, stack st' = items ++ stack st /\ contexts items = true;
  grows_trace :
    exists evs, trace st' = trace st ++ evs /\ quiet evs = true;
  grows_topics :
    forall k o, assoc k (topics (store st)) = Some o ->
                assoc k (topics (store st')) = Some o;
  grows_sources : data_sources (store st') = data_sources (store st)
}.

Definition steady {A : Type} (m : M A) : Prop :=
  forall st, grows st (snd (m st)).

(** Everything in the block after the callback has been pushed. *)
Definition after_callback (self : MQTTController) (w : session) : M unit :=
  emit (Connect (host self) (port self)) ;;;
  may_raise (connect_raises w) ;;;
  push ClientContext ;;;
  assemble ;;;
  s <- get_store ;;
  all_topics <- open_topics (topics s) [] ;;
  emit (Subscribe all_topics) ;;;
  may_raise (subscribe_raises w) ;;;
  gather w.

(** The topic of a registration object. *)
Definition topic_is (o : MQTTTopic) (k : string) : Prop :=
  getattr o "topic" = Some (Str k).

(** What the data sources declare, all together and in order. *)
Definition declared (dss : list DataSource) : list (string * handler) :=
  flat_map ds_declares dss.

(** The registration objects that the constructor yields for a list of
    declarations, the first one with identity [n]. *)
Fixpoint registrations (n : nat) (decls : list (string * handler))
    : list (string * MQTTTopic) :=
  match decls with
  | [] => []
  | (t, _) :: rest =>
      (t, {| oid := n; inst_dict := [("topic", Str t)] |}) :: registrations (S n) rest
  end.

(** A task that has just been created. *)
Definition running (h : handler) (t : string) : Task :=
  {| coro := h; stream := t; status := Running |}.

(** The tasks that are not done. *)
Definition pending (ts : list Task) : list Task :=
  filter (fun t => negb (done t)) ts.

(** What assembling the declarations [decls] does to a state: the
    registrations are appended to the topic map, the handlers to the list
    of the class, and nothing else changes. *)
Definition assembled (decls : list (string * handler)) (st st' : state) : Prop :=
  topics (store st') =
    topics (store st) ++ registrations (next_oid (store st)) decls
  /\ heap_get (heap (store st')) handlers_loc =
     heap_get (heap (store st)) handlers_loc ++ map (fun d => Callable (snd d)) decls
  /\ next_oid (store st') = next_oid (store st) + length decls
  /\ heap (store st') <> []
  /\ tasks (store st') = tasks (store st)
  /\ data_sources (store st') = data_sources (store st)
  /\ trace st' = trace st
  /\ stack st' = stack st.

(** The events of the task loop: for every topic its stream, then one task
    per handler of the list. *)
Definition opening (hs : list handler) (keys : list string) : list event :=
  flat_map (fun k => FilteredMessages k :: map (fun h => CreateTask h k) hs) keys.

(** The tasks of the task loop, in the order of their creation. *)
Definition spawned (hs : list handler) (keys : list string) : list Task :=
  flat_map (fun k => map (fun h => running h k) hs) keys.

(** The events of a session once the connection has been asked for:
    streams, tasks, the subscription and the way out of the contexts; not
    another connection, a cancellation, a sleep or a log line. *)
Definition session_event (e : event) : bool :=
  match e with
  | FilteredMessages _ | CreateTask _ _ | Subscribe _
  | CloseStream _ | Disconnect => true
  | Connect _ _ | Cancel _ _ | Sleep _ | Log _ _ => false
  end.

(** A computation that adds only such events to the trace. *)
Definition in_session {A : Type} (m : M A) : Prop :=
  forall st, exists evs,
    trace (snd (m st)) = trace st ++ evs /\ forallb session_event evs = true.

(** A topic is a key of the topic map. *)
Definition registered (k : string) (st : state) : Prop :=
  exists o, assoc k (topics (store st)) = Some o.

End MQTT.

(* ================================================================= *)
(** ** Concrete inputs *)

Module Fixtures.
Import Py.

Definition kitchen : DataSource :=
  {| ds_name := "kitchen"; ds_declares := [("T", "h1")] |}.

Definition garage : DataSource :=
  {| ds_name := "garage"; ds_declares := [("T", "h2")] |}.

Definition home : HASS.HASSController :=
  {| HASS.url := "ws://hass.local:8123/api/websocket";
     HASS.auth_token := "X";
     HASS.data_sources := [kitchen; garage] |}.

(** A fresh connection that stays open. *)
Definition idle : @HASS.state HASS.wire :=
  {| HASS.trace := []; HASS.sends_left := None |}.

Definition entity_a : value := JDict [("entity_id", JStr "a")].



Definition frame_auth_required : value := JDict [("type", JStr "auth_required")].

Definition frame_auth_ok : value := JDict [("type", JStr "auth_ok")].

(** An event as Home Assistant sends it. *)
Definition frame_event : value :=
  JDict [("id", JInt 1); ("type", JStr "event");
         ("event", JDict [("event_type", JStr "state_changed"); ("data", entity_a)])].


(** Frames that carry a reserved id and a handshake type. *)
Definition frame_auth_ok_id1 : value :=
  JDict [("type", JStr "auth_ok"); ("id", JInt 1); ("event", JDict [("data", entity_a)])].



Definition frame_null_result : value :=
  JDict [("id", JInt 2); ("type", JStr "result"); ("success", JBool false);
         ("result", JNull)].

(** Frames with only one of the two keys. *)
Definition frame_pong : value := JDict [("type", JStr "pong")].

Definition frame_event_without_type : value :=
  JDict [("id", JInt 1); ("event", JDict [("data", entity_a)])].

Definition frame_auth_invalid : value := JDict [("type", JStr "auth_invalid")].

(** The first frame of the server, with the version it announces. *)
Definition frame_auth_required_versioned : value :=
  JDict [("type", JStr "auth_required"); ("ha_version", JStr "2021.1.0")].

(** A list frame, and a snapshot whose result is an object. *)
Definition frame_list : value := JList [JStr "result"; JInt 2].


(** A fresh connection on which the peer takes one more send. *)
Definition closing : @HASS.state HASS.wire :=
  {| HASS.trace := []; HASS.sends_left := Some 1 |}.

(** A connection that is closed before any frame arrives. *)
Definition closed_at_once : @HASS.attempt HASS.wire :=
  HASS.Connected {| HASS.inbox := []; HASS.inbox_end := HASS.RecvRaises ConnectionClosed;
                    HASS.peer_sends := None |}.

Definition waiting (frames : list HASS.wire) : @HASS.attempt HASS.wire :=
  HASS.Connected {| HASS.inbox := frames; HASS.inbox_end := HASS.RecvBlocks;
                    HASS.peer_sends := None |}.

Definition broker : MQTT.MQTTController :=
  {| MQTT.host := "broker.local"; MQTT.port := 1883;
     MQTT.username := None; MQTT.password := None |}.

(** The state right after import, with the given data sources. *)
Definition fresh (dss : list DataSource) : MQTT.state :=
  MQTT.start (MQTT.initial_store dss).

(** A session in which the broker does its part and the listeners run on. *)
Definition steady_session : MQTT.session :=
  {| MQTT.connect_raises := None; MQTT.subscribe_raises := None;
     MQTT.gather_ends := MQTT.GatherBlocks; MQTT.finished := fun _ _ => false |}.

(** The broker cannot be reached. *)
Definition refused : MQTT.session :=
  {| MQTT.connect_raises := Some MqttError; MQTT.subscribe_raises := None;
     MQTT.gather_ends := MQTT.GatherBlocks; MQTT.finished := fun _ _ => false |}.

(** The connection is lost while subscribing. *)
Definition subscribe_fails : MQTT.session :=
  {| MQTT.connect_raises := None; MQTT.subscribe_raises := Some MqttError;
     MQTT.gather_ends := MQTT.GatherBlocks; MQTT.finished := fun _ _ => false |}.

(** The registration object the first construction yields. *)
Definition first_T : MQTT.MQTTTopic :=
  {| MQTT.oid := 0; MQTT.inst_dict := [("topic", MQTT.Str "T")] |}.

Definition listener (h : handler) (t : string) : MQTT.Task :=
  {| MQTT.coro := h; MQTT.stream := t; MQTT.status := MQTT.Running |}.

(** Two data sources that declare different topics. *)
Definition porch : DataSource :=
  {| ds_name := "porch"; ds_declares := [("A", "ha")] |}.

Definition attic : DataSource :=
  {| ds_name := "attic"; ds_declares := [("B", "hb")] |}.

End Fixtures.

(* ================================================================= *)
(** * Properties *)

(** ** Python operators *)

Module PyFacts.
Import Py.






Lemma eq_str_true (v : value) (s : string) :
  eq_str v s = true -> v = JStr s.
Proof.
  destruct v; simpl; try discriminate.
  intros H. apply String.eqb_eq in H. now subst.
Qed.

End PyFacts.

(* ================================================================= *)
(** ** HASSController: classification and fan-out *)

Module HASSFacts.
Import Py PyFacts HASS.

Section Dispatch.

Context {payload : Type}.
Variable json_loads : payload -> option value.
Variable json_dumps : value -> payload.

Abbreviation state := (@state payload).
Abbreviation event := (@event payload).
Abbreviation never_blocks := (@HASS.never_blocks payload _).

Lemma type_is_dict (d : list (string * value)) (s : string) :
  type_is (JDict d) s =
  Ok (match dict_get "type" d with Some t => eq_str t s | None => false end).
Proof.
  unfold type_is, contains, dict_mem, getitem.
  destruct (dict_get "type" d); reflexivity.
Qed.

Lemma id_is_dict (d : list (string * value)) (n : Z) :
  id_is (JDict d) n =
  match dict_get "type" d with
  | None => Ok false
  | Some _ =>
      match dict_get "id" d with
      | Some i => Ok (eq_int i n)
      | None => Err KeyError
      end
  end.
Proof.
  unfold id_is, contains, dict_mem, getitem.
  destruct (dict_get "type" d); [|reflexivity].
  destruct (dict_get "id" d); reflexivity.
Qed.

Lemma auth_type_false (t : value) :
  auth_type t = false ->
  eq_str t "auth_required" = false /\ eq_str t "auth_invalid" = false /\
  eq_str t "auth_ok" = false.
Proof.
  unfold auth_type. intros H.
  apply orb_false_iff in H as [H H3]. apply orb_false_iff in H as [H1 H2].
  auto.
Qed.

Lemma for_each_ext {A : Type} (xs : list A) (f g : A -> M unit) (st : state) :
  (forall x s, f x s = g x s) ->
  for_each xs f st = for_each xs g st.
Proof.
  intros Hfg. revert st. induction xs as [|x rest IH]; intros st; simpl.
  - reflexivity.
  - unfold bind. rewrite Hfg. destruct (g x st) as [[a|e|] st1]; auto.
Qed.

(** A loop of callbacks appends one call per item, in order. *)
Lemma for_each_emit {A : Type} (f : A -> event) (xs : list A) (st : state) :
  for_each xs (fun x => emit (f x)) st =
  (Return tt, {| trace := trace st ++ map f xs; sends_left := sends_left st |}).
Proof.
  revert st. induction xs as [|x rest IH]; intros st; simpl.
  - unfold ret. rewrite app_nil_r. now destruct st.
  - unfold bind at 1. unfold emit at 1. rewrite IH. simpl.
    now rewrite <- app_assoc.
Qed.

(** The nested loop of the bulk branch: record by record, and for each
    record data source by data source. *)
Lemma for_each_records (f : DataSource -> value -> event)
    (records : list value) (dss : list DataSource) (st : state) :
  for_each records (fun r => for_each dss (fun ds => emit (f ds r))) st =
  (Return tt,
   {| trace := trace st ++ flat_map (fun r => map (fun ds => f ds r) dss) records;
      sends_left := sends_left st |}).
Proof.
  revert st. induction records as [|r rest IH]; intros st; simpl.
  - unfold ret. rewrite app_nil_r. now destruct st.
  - unfold bind at 1. rewrite (for_each_emit (fun ds => f ds r)).
    rewrite IH. simpl. now rewrite <- app_assoc.
Qed.

Lemma bind_lift_Ok {A B : Type} (a : A) (k : A -> M B) (st : state) :
  bind (lift (Ok a)) k st = k a st.
Proof. reflexivity. Qed.

Lemma bind_log {B : Type} (l : level) (msg : string) (k : unit -> M B) (st : state) :
  bind (log l msg) k st =
  k tt {| trace := trace st ++ [Log l msg]; sends_left := sends_left st |}.
Proof. reflexivity. Qed.

Lemma ws_send_ok (p : payload) (st : state) :
  can_send 1 (sends_left st) ->
  ws_send p st =
  (Return tt, {| trace := trace st ++ [Send p];
                 sends_left := after_sends 1 (sends_left st) |}).
Proof.
  unfold ws_send, can_send, after_sends.
  destruct (sends_left st) as [[|k]|]; simpl; intros H; try lia; try reflexivity.
  now rewrite Nat.sub_0_r.
Qed.

(** C3. A decoded frame whose type is [auth_ok], received while the
    connection takes two more sends, makes [on_message] send exactly two
    requests, in this order: the event subscription tagged [event_rq_id],
    then the state snapshot request tagged [bulk_rq_id].  The two are
    different requests, nothing else is sent, and no data source is
    called. *)
Theorem on_message_auth_ok (self : HASSController) (message : payload)
    (d : list (string * value)) (st : state) :
  json_loads message = Some (JDict d) ->
  dict_get "type" d = Some (JStr "auth_ok") ->
  can_send 2 (sends_left st) ->
  let after := on_message json_loads json_dumps self message st in
  after =
    (Return tt,
     {| trace := trace st ++
          [Log INFO "Authentication successful";
           Send (json_dumps subscribe_command);
           Log INFO "Event update request sent";
           Send (json_dumps get_states_command);
           Log INFO "All states request sent"];
        sends_left := after_sends 2 (sends_left st) |})
  /\ sent (trace (snd after)) =
       sent (trace st) ++ [json_dumps subscribe_command; json_dumps get_states_command]
  /\ calls (trace (snd after)) = calls (trace st)
  /\ subscribe_command =
       JDict [("id", JInt event_rq_id); ("type", JStr "subscribe_events");
              ("event_type", JStr "state_changed")]
  /\ get_states_command = JDict [("id", JInt bulk_rq_id); ("type", JStr "get_states")]
  /\ subscribe_command <> get_states_command.
Proof.
  intros Hload Htype Hsend after.
  assert (Hafter : after =
    (Return tt,
     {| trace := trace st ++
          [Log INFO "Authentication successful";
           Send (json_dumps subscribe_command);
           Log INFO "Event update request sent";
           Send (json_dumps get_states_command);
           Log INFO "All states request sent"];
        sends_left := after_sends 2 (sends_left st) |})).
  { subst after. unfold on_message. rewrite Hload. unfold dispatch.
    rewrite !type_is_dict, Htype. simpl.
    unfold bind, lift, ret, log, emit, ws_send. simpl.
    unfold can_send, after_sends in *.
    destruct (sends_left st) as [[|[|k]]|]; simpl; try lia;
      rewrite <- ?app_assoc; simpl; try reflexivity.
    now rewrite Nat.sub_0_r. }
  split; [exact Hafter|].
  rewrite Hafter. simpl. unfold sent, calls.
  rewrite flat_map_app, filter_app. simpl. rewrite app_nil_r.
  repeat split; try reflexivity. discriminate.
Qed.

(** What the branches before the two id tests come to for a frame that
    carries a type other than the three handshake types. *)
Lemma dispatch_by_id (self : HASSController) (d : list (string * value))
    (t : value) (st : state) :
  dict_get "type" d = Some t ->
  auth_type t = false ->
  dispatch json_dumps self (JDict d) st =
  match dict_get "id" d with
  | None => (Raise KeyError, st)
  | Some i =>
      if eq_int i event_rq_id then
        (log DEBUG "Potential event update received" ;;;
         if negb (truthy (safekey (JDict d) "event/data")) then ret tt
         else
           for_each (data_sources self) (fun ds =>
             ev <- lift (getitem (JDict d) "event") ;;
             data <- lift (getitem ev "data") ;;
             emit (ParseIncremental ds data))) st
      else if eq_int i bulk_rq_id then
        (log INFO "Bulk update received" ;;;
         r <- lift (get (JDict d) "result") ;;
         if is_None r then ret tt
         else
           log DEBUG "Entity update received" ;;;
           bulk_update <- lift (iter r) ;;
           for_each bulk_update (fun status =>
             for_each (data_sources self) (fun ds => emit (ParseBulk ds status)))) st
      else log DEBUG "Unknown/unhandled message received" st
  end.
Proof.
  intros Htype Hauth.
  apply auth_type_false in Hauth as (H1 & H2 & H3).
  unfold dispatch. rewrite !type_is_dict, !id_is_dict, Htype, H1, H2, H3.
  destruct (dict_get "id" d) as [i|]; [|reflexivity].
  unfold bind at 1 2 3 4. simpl.
  destruct (eq_int i event_rq_id); [reflexivity|].
  unfold bind at 1. simpl.
  destruct (eq_int i bulk_rq_id); reflexivity.
Qed.

(** A frame without a ['type'] key fails every test of the chain and is
    logged as unknown, whatever else it carries. *)
Lemma dispatch_without_type (self : HASSController) (d : list (string * value))
    (st : state) :
  dict_get "type" d = None ->
  dispatch json_dumps self (JDict d) st =
  log DEBUG "Unknown/unhandled message received" st.
Proof.
  intros Htype. unfold dispatch.
  rewrite !type_is_dict, !id_is_dict, Htype. reflexivity.
Qed.




(** Seen from one data source, the bulk fan-out is the list of records:
    one call per record, in record order. *)
Lemma bulk_calls_per_source (dss : list DataSource) (records : list value)
    (ds : DataSource) :
  filter (fun x => String.eqb (ds_name x) (ds_name ds)) dss = [ds] ->
  bulk_for (ds_name ds)
    (flat_map (fun r => map (fun x => ParseBulk x r) dss) records : list event) =
  records.
Proof.
  intros Hone. unfold bulk_for.
  induction records as [|r rest IH]; simpl; [reflexivity|].
  rewrite flat_map_app, IH.
  assert (Hr : forall l : list DataSource,
    flat_map (fun e : event => match e with
                       | ParseBulk x r0 =>
                           if String.eqb (ds_name x) (ds_name ds) then [r0] else []
                       | _ => []
                       end) (map (fun x => ParseBulk x r) l) =
    map (fun _ => r) (filter (fun x => String.eqb (ds_name x) (ds_name ds)) l)).
  { induction l as [|x l' IHl]; simpl; [reflexivity|].
    destruct (String.eqb (ds_name x) (ds_name ds)); simpl; now rewrite IHl. }
  rewrite Hr, Hone. reflexivity.
Qed.

(** *** Frames that match nothing *)

(** X10.  A frame with a type other than the handshake types and an id
    that equals neither reserved id is logged at DEBUG and otherwise
    ignored; so is every frame without a ['type'] key. *)
Lemma on_message_unknown (self : HASSController) (message : payload)
    (d : list (string * value)) (st : state) :
  json_loads message = Some (JDict d) ->
  dict_get "type" d = None \/
  (exists t i, dict_get "type" d = Some t /\ auth_type t = false /\
               dict_get "id" d = Some i /\
               eq_int i event_rq_id = false /\ eq_int i bulk_rq_id = false) ->
  on_message json_loads json_dumps self message st =
  (Return tt,
   {| trace := trace st ++ [Log DEBUG "Unknown/unhandled message received"];
      sends_left := sends_left st |}).
Proof.
  intros Hload H. unfold on_message. rewrite Hload.
  destruct H as [Htype | (t & i & Htype & Hauth & Hid & H1 & H2)].
  - now rewrite dispatch_without_type.
  - now rewrite (dispatch_by_id self d st Htype Hauth), Hid, H1, H2.
Qed.

(** A frame with a type other than the handshake types and no ['id'] key
    makes the first id test raise [KeyError]: nothing is logged, and the
    exception leaves [on_message]. *)
Lemma on_message_type_without_id (self : HASSController) (message : payload)
    (d : list (string * value)) (t : value) (st : state) :
  json_loads message = Some (JDict d) ->
  dict_get "type" d = Some t ->
  auth_type t = false ->
  dict_get "id" d = None ->
  on_message json_loads json_dumps self message st = (Raise KeyError, st).
Proof.
  intros Hload Htype Hauth Hid. unfold on_message. rewrite Hload.
  now rewrite (dispatch_by_id self d st Htype Hauth), Hid.
Qed.

(** A frame that decodes to a number, a boolean or null is no container:
    the first test of the chain raises [TypeError]. *)
Lemma on_message_not_a_container (self : HASSController) (message : payload)
    (v : value) (st : state) :
  json_loads message = Some v ->
  contains "type" v = Err TypeError ->
  on_message json_loads json_dumps self message st = (Raise TypeError, st).
Proof.
  intros Hload Hv. unfold on_message. rewrite Hload.
  unfold dispatch, type_is. now rewrite Hv.
Qed.

(** *** [on_message] always comes back *)

Lemma never_blocks_ret {A : Type} (a : A) : never_blocks (ret a).
Proof. intros st. discriminate. Qed.

Lemma never_blocks_raise {A : Type} (e : exn) : never_blocks (@raise payload A e).
Proof. intros st. discriminate. Qed.

Lemma never_blocks_lift {A : Type} (r : res A) : never_blocks (lift r).
Proof. destruct r; [apply never_blocks_ret | apply never_blocks_raise]. Qed.

Lemma never_blocks_emit (e : event) : never_blocks (emit e).
Proof. intros st. discriminate. Qed.

Lemma never_blocks_ws_send (p : payload) : never_blocks (ws_send p).
Proof.
  intros st. unfold ws_send. destruct (sends_left st) as [[|k]|]; discriminate.
Qed.

Lemma never_blocks_bind {A B : Type} (m : M A) (k : A -> M B) :
  never_blocks m -> (forall a, never_blocks (k a)) -> never_blocks (bind m k).
Proof.
  intros Hm Hk st. unfold bind. specialize (Hm st).
  destruct (m st) as [[a|e|] st']; simpl in *.
  - apply Hk.
  - discriminate.
  - congruence.
Qed.

Lemma never_blocks_for_each {A : Type} (xs : list A) (body : A -> M unit) :
  (forall x, never_blocks (body x)) -> never_blocks (for_each xs body).
Proof.
  intros Hbody. induction xs as [|x rest IH]; simpl.
  - apply never_blocks_ret.
  - apply never_blocks_bind; auto.
Qed.

Create HintDb nb discriminated.
#[local] Hint Resolve never_blocks_ret never_blocks_raise never_blocks_lift
  never_blocks_emit never_blocks_ws_send never_blocks_for_each : nb.

Ltac nb_step :=
  match goal with
  | |- never_blocks (bind _ _) => apply never_blocks_bind; [|intros ?]
  | |- never_blocks (if ?b then _ else _) => destruct b
  | |- never_blocks (log _ _) => apply never_blocks_emit
  | |- never_blocks (for_each _ _) => apply never_blocks_for_each; intros ?
  | |- never_blocks _ => solve [auto with nb]
  end.

Lemma dispatch_never_blocks (self : HASSController) (v : value) :
  never_blocks (dispatch json_dumps self v).
Proof. unfold dispatch. repeat nb_step. Qed.

Lemma on_message_never_blocks (self : HASSController) (message : payload) :
  never_blocks (on_message json_loads json_dumps self message).
Proof.
  unfold on_message. destruct (json_loads message).
  - apply dispatch_never_blocks.
  - apply never_blocks_raise.
Qed.

(** *** The supervising loop *)

(** Frames that were handled, the loop then waiting for the next one, can
    be followed by any further input. *)
Lemma recv_loop_app (self : HASSController) (before more : list payload)
    (fin : recv_end) (st st' : state) :
  recv_loop json_loads json_dumps self before RecvBlocks st = (Blocked, st') ->
  recv_loop json_loads json_dumps self (before ++ more) fin st =
  recv_loop json_loads json_dumps self more fin st'.
Proof.
  revert st. induction before as [|p rest IH]; intros st H; simpl in *.
  - now inversion H.
  - pose proof (on_message_never_blocks self p
                  {| trace := (trace st ++ [Recv p]) ++ [Log DEBUG "Received message"];
                     sends_left := sends_left st |}) as Hnb.
    unfold bind in H |- *. unfold emit, log in H |- *. simpl in H |- *.
    destruct (on_message json_loads json_dumps self p _) as [[[]|e|] st1];
      simpl in Hnb.
    + now apply IH.
    + destruct (is_ConnectionClosed e); discriminate.
    + congruence.
Qed.

(** A payload that does not decode stops the receive loop with
    [JSONDecodeError]; the clause for [ConnectionClosed] does not apply. *)
Lemma recv_loop_malformed (self : HASSController) (bad : payload)
    (rest : list payload) (fin : recv_end) (st : state) :
  json_loads bad = None ->
  recv_loop json_loads json_dumps self (bad :: rest) fin st =
  (Raise JSONDecodeError,
   {| trace := trace st ++ [Recv bad; Log DEBUG "Received message"];
      sends_left := sends_left st |}).
Proof.
  intros Hbad. simpl. unfold bind, emit, log, on_message. simpl.
  rewrite Hbad. simpl. now rewrite <- app_assoc.
Qed.

Lemma sleeps_app (tr1 tr2 : list event) :
  sleeps (tr1 ++ tr2) = sleeps tr1 ++ sleeps tr2.
Proof. apply flat_map_app. Qed.

Lemma connects_app (tr1 tr2 : list event) :
  connects (tr1 ++ tr2) = connects tr1 + connects tr2.
Proof. unfold connects. now rewrite filter_app, length_app. Qed.

(** C8 (amended).  When the session has handled the frames before it and
    then receives a payload that does not decode, [json.loads] raises
    inside [on_message] before anything is sent or dispatched; neither
    [except] clause of [client_handler] catches the error.  The connection
    context is left and the client task ends with [JSONDecodeError]: no
    delay follows, no new task is created, no further connection attempt is
    made, whatever the server would have done next. *)
Theorem malformed_payload_ends_client (self : HASSController)
    (before : list payload) (bad : payload) (rest : list payload)
    (fin : recv_end) (budget : option nat) (later : list attempt)
    (tr : list event) (st' : state) :
  json_loads bad = None ->
  recv_loop json_loads json_dumps self before RecvBlocks
    {| trace := tr ++ [Log INFO "Starting websocket client"; Connect (url self)];
       sends_left := budget |} = (Blocked, st') ->
  let after :=
    client_handler json_loads json_dumps self
      (Connected {| inbox := before ++ bad :: rest; inbox_end := fin;
                    peer_sends := budget |} :: later) tr in
  after = (Died JSONDecodeError,
           trace st' ++ [Recv bad; Log DEBUG "Received message"; Close])
  /\ sleeps (snd after) = sleeps (trace st')
  /\ connects (snd after) = connects (trace st')
  /\ sent (snd after) = sent (trace st')
  /\ calls (snd after) = calls (trace st').
Proof.
  intros Hbad Hbefore after.
  assert (Hafter : after =
    (Died JSONDecodeError,
     trace st' ++ [Recv bad; Log DEBUG "Received message"; Close])).
  { subst after. simpl.
    rewrite (@recv_loop_app self before (bad :: rest) fin _ _ Hbefore).
    rewrite recv_loop_malformed by assumption. simpl.
    now rewrite <- app_assoc. }
  split; [exact Hafter|]. rewrite Hafter. simpl.
  rewrite sleeps_app, connects_app. unfold sent, calls.
  rewrite flat_map_app, filter_app. simpl.
  rewrite !app_nil_r. repeat split. unfold connects. simpl. lia.
Qed.

Ltac count_retries :=
  simpl; rewrite ?sleeps_app, ?connects_app; simpl;
  rewrite ?app_nil_r, <- ?app_assoc; simpl;
  split; [reflexivity | unfold connects; simpl; lia].

(** X11.  When every attempt ends in a transport failure that the
    handlers name (the connection cannot be set up, or it is closed before
    any frame), the websocket client sleeps 10 seconds after each one and a
    new task makes the next attempt, however many failures there are. *)
Lemma client_handler_retries (self : HASSController) (world : list attempt)
    (tr : list event) :
  forallb transport_failure world = true ->
  exists tr',
    client_handler json_loads json_dumps self world tr = (Horizon, tr')
    /\ sleeps tr' = sleeps tr ++ repeat 10 (length world)
    /\ connects tr' = connects tr + length world.
Proof.
  revert tr. induction world as [|a later IH]; intros tr Hall; simpl.
  - exists tr. rewrite app_nil_r, Nat.add_0_r. auto.
  - simpl in Hall. apply andb_true_iff in Hall as [Ha Hlater].
    destruct a as [e|s]; simpl in Ha.
    + rewrite Ha.
      destruct (IH ((tr ++ [Log INFO "Starting websocket client"; Connect (url self)])
                      ++ unable_to_connect) Hlater) as (tr' & Hrun & Hs & Hc).
      exists tr'. split; [exact Hrun|]. rewrite Hs, Hc. count_retries.
    + destruct s as [frames fin budget]. simpl in *.
      destruct frames as [|p rest]; [|discriminate].
      destruct fin as [e|]; [|discriminate]. simpl.
      destruct (is_ConnectionClosed e) eqn:Hcc.
      * unfold on_connection_closed, bind, log, emit. simpl.
        match goal with |- context [client_handler _ _ _ later ?t] =>
          destruct (IH t Hlater) as (tr' & Hrun & Hs & Hc) end.
        exists tr'. split; [exact Hrun|]. rewrite Hs, Hc. count_retries.
      * unfold raise. rewrite Ha.
        match goal with |- context [client_handler _ _ _ later ?t] =>
          destruct (IH t Hlater) as (tr' & Hrun & Hs & Hc) end.
        exists tr'. split; [exact Hrun|]. rewrite Hs, Hc. count_retries.
Qed.

(** X12.  A connection closed at any point of a session: when the frames
    so far were handled and [recv] then raises [ConnectionClosed], the task
    logs, sleeps 10 seconds, creates the next task and leaves the
    connection; the next attempt goes on from there. *)
Lemma client_handler_reconnects_after_close (self : HASSController)
    (frames : list payload) (budget : option nat) (later : list attempt)
    (tr : list event) (st' : state) :
  recv_loop json_loads json_dumps self frames RecvBlocks
    {| trace := tr ++ [Log INFO "Starting websocket client"; Connect (url self)];
       sends_left := budget |} = (Blocked, st') ->
  client_handler json_loads json_dumps self
    (Connected {| inbox := frames; inbox_end := RecvRaises ConnectionClosed;
                  peer_sends := budget |} :: later) tr =
  client_handler json_loads json_dumps self later
    (trace st' ++
     [Log ERROR "Lost connection to websocket server";
      Log INFO "Reconnecting in 10...";
      Sleep 10; CreateTask; Close]).
Proof.
  intros Hframes. simpl.
  rewrite <- (app_nil_r frames) at 1.
  rewrite (@recv_loop_app self frames [] (RecvRaises ConnectionClosed) _ _ Hframes).
  simpl. unfold on_connection_closed, bind, log, emit. simpl.
  now rewrite <- !app_assoc.
Qed.

(** An exception that neither clause names ends the client for good. *)
Lemma client_handler_uncaught_connect (self : HASSController) (e : exn)
    (later : list attempt) (tr : list event) :
  caught_outside e = false ->
  client_handler json_loads json_dumps self (ConnectRaises e :: later) tr =
  (Died e, tr ++ [Log INFO "Starting websocket client"; Connect (url self)]).
Proof. intros H. simpl. now rewrite H. Qed.

End Dispatch.

(** *** The statements at concrete frames *)

Import Fixtures.

(** C3 at the frame [auth_ok] itself, on a connection that stays open. *)
Lemma on_message_auth_ok_witness :
  on_message wire_loads wire_dumps home (Json frame_auth_ok) idle =
  (Return tt,
   {| trace := [Log INFO "Authentication successful";
                Send (Json subscribe_command);
                Log INFO "Event update request sent";
                Send (Json get_states_command);
                Log INFO "All states request sent"];
      sends_left := None |}).
Proof.
  exact (proj1 (@on_message_auth_ok wire wire_loads wire_dumps home
                  (Json frame_auth_ok) _ idle eq_refl eq_refl I)).
Defined.





(** C9 at the failing input: a frame with a type and no id.  The first id
    test raises [KeyError]; nothing catches it, and the client task ends
    without a delay or a new attempt although the server would accept one.
    A frame with the reserved id and no type is dropped as unknown, so a
    frame is not matched by its id alone. *)
Theorem frame_without_id_raises :
  on_message wire_loads wire_dumps home (Json frame_pong) idle =
    (Raise KeyError, idle)
  /\ client_handler wire_loads wire_dumps home
       [waiting [Json frame_pong]; waiting []] [] =
     (Died KeyError,
      [Log INFO "Starting websocket client";
       Connect "ws://hass.local:8123/api/websocket";
       Recv (Json frame_pong);
       Log DEBUG "Received message";
       Close])
  /\ on_message wire_loads wire_dumps home (Json frame_event_without_type) idle =
     (Return tt,
      {| trace := [Log DEBUG "Unknown/unhandled message received"];
         sends_left := None |}).
Proof. repeat split. Qed.

(** C8 (amended) at a malformed payload in the middle of the handshake. *)
Lemma malformed_payload_ends_client_witness :
  client_handler wire_loads wire_dumps home
    [waiting [Json frame_auth_required; Garbage "not json"; Json frame_auth_ok];
     waiting []] [] =
  (Died JSONDecodeError,
   [Log INFO "Starting websocket client";
    Connect "ws://hass.local:8123/api/websocket";
    Recv (Json frame_auth_required);
    Log DEBUG "Received message";
    Log INFO "Authentication requested";
    Send (Json (auth_response home));
    Recv (Garbage "not json");
    Log DEBUG "Received message";
    Close]).
Proof.
  exact (proj1 (@malformed_payload_ends_client wire wire_loads wire_dumps home
                  [Json frame_auth_required] (Garbage "not json")
                  [Json frame_auth_ok] RecvBlocks None [waiting []] [] _
                  eq_refl eq_refl)).
Defined.

(** C8, as stated, fails: after a malformed payload the client neither
    waits nor connects again, although the next attempt would succeed. *)
Lemma malformed_payload_no_reconnect :
  let after :=
    client_handler wire_loads wire_dumps home
      [waiting [Garbage "not json"]; waiting []] [] in
  fst after = Died JSONDecodeError
  /\ sleeps (snd after) = []
  /\ connects (snd after) = 1
  /\ ~ In CreateTask (snd after).
Proof.
  repeat split. simpl. intros H.
  repeat (destruct H as [H|H]; [discriminate|]). exact H.
Qed.

(** The handshake of the specification's example trace: three frames go
    out, the reply to [auth_required] and then the two requests. *)
Lemma handshake_trace :
  let after :=
    client_handler wire_loads wire_dumps home
      [waiting [Json frame_auth_required; Json frame_auth_ok]] [] in
  fst after = Suspended
  /\ sent (snd after) =
     [Json (auth_response home); Json subscribe_command; Json get_states_command].
Proof. split; reflexivity. Qed.

(** Two cases the handlers do not name.  A refused connection is an
    [OSError] that is neither a [WebSocketException] nor a [gaierror]. *)
Lemma connection_refused_ends_client :
  client_handler wire_loads wire_dumps home
    [ConnectRaises ConnectionRefusedError; waiting []] [] =
  (Died ConnectionRefusedError,
   [Log INFO "Starting websocket client";
    Connect "ws://hass.local:8123/api/websocket"]).
Proof. reflexivity. Qed.

End HASSFacts.

(* ================================================================= *)
(** ** MQTTTopic: one handler list for all instances *)

Module MQTTFacts.
Import Py MQTT.

Lemma heap_get_set_same (h : list (list pyobj)) (l : loc) (v : list pyobj) :
  l < length h -> heap_get (heap_set h l v) l = v.
Proof.
  revert l. induction h as [|x rest IH]; intros l Hl; simpl in *; [lia|].
  destruct l as [|l']; [reflexivity|]. apply IH. lia.
Qed.

Lemma heap_set_length (h : list (list pyobj)) (l : loc) (v : list pyobj) :
  length (heap_set h l v) = length h.
Proof.
  revert l. induction h as [|x rest IH]; intros l; simpl; [reflexivity|].
  destruct l; simpl; [reflexivity|]. now rewrite IH.
Qed.

(** The constructor always returns: the new instance holds its topic, the
    handler went to the end of the list that the class attribute names. *)
Lemma MQTTTopic_init_eq (topic : string) (h : handler) (st : state) :
  MQTTTopic_init topic h st =
  (Return {| oid := next_oid (store st); inst_dict := [("topic", Str topic)] |},
   {| store :=
        set_heap
          (heap_set (heap (store st)) handlers_loc
             (heap_get (heap (store st)) handlers_loc ++ [Callable h]))
          (set_next_oid (S (next_oid (store st))) (store st));
      trace := trace st;
      stack := stack st |}).
Proof. reflexivity. Qed.

(** A fresh instance has no [handlers] of its own: the name resolves to
    the list of the class. *)
Lemma fresh_instance_handlers (n : nat) (topic : string) :
  getattr {| oid := n; inst_dict := [("topic", Str topic)] |} "handlers" =
  Some (ListRef handlers_loc).
Proof. reflexivity. Qed.

(** C10.  Two constructions [MQTTTopic(t1, h1)] and [MQTTTopic(t2, h2)],
    one after the other and for any two topics, both return; the
    [handlers] attribute of both objects is the one list of the class, and
    that list has grown by [h1] and [h2], in this order ([[h1, h2]] when it
    was empty before).  So each object lists the handler that was given
    for the other. *)
Theorem MQTTTopic_handlers_shared (t1 t2 : string) (h1 h2 : handler) (st : state) :
  heap (store st) <> [] ->
  exists o1 st1 o2 st2,
    MQTTTopic_init t1 h1 st = (Return o1, st1)
    /\ MQTTTopic_init t2 h2 st1 = (Return o2, st2)
    /\ getattr o1 "topic" = Some (Str t1)
    /\ getattr o2 "topic" = Some (Str t2)
    /\ getattr o1 "handlers" = Some (ListRef handlers_loc)
    /\ getattr o2 "handlers" = Some (ListRef handlers_loc)
    /\ attr_iter o1 "handlers" st2 =
       (Return (heap_get (heap (store st)) handlers_loc ++ [Callable h1; Callable h2]), st2)
    /\ attr_iter o2 "handlers" st2 =
       (Return (heap_get (heap (store st)) handlers_loc ++ [Callable h1; Callable h2]), st2).
Proof.
  intros Hheap.
  assert (Hlen : handlers_loc < length (heap (store st))).
  { unfold handlers_loc. destruct (heap (store st)); [congruence | simpl; lia]. }
  do 4 eexists.
  split; [apply MQTTTopic_init_eq|].
  split; [apply MQTTTopic_init_eq|].
  assert (Hlist :
    heap_get
      (heap_set
         (heap_set (heap (store st)) handlers_loc
            (heap_get (heap (store st)) handlers_loc ++ [Callable h1]))
         handlers_loc
         (heap_get
            (heap_set (heap (store st)) handlers_loc
               (heap_get (heap (store st)) handlers_loc ++ [Callable h1]))
            handlers_loc ++ [Callable h2]))
      handlers_loc =
    heap_get (heap (store st)) handlers_loc ++ [Callable h1; Callable h2]).
  { rewrite heap_get_set_same by (rewrite heap_set_length; exact Hlen).
    rewrite heap_get_set_same by exact Hlen.
    now rewrite <- app_assoc. }
  repeat split; unfold attr_iter, attr_of, bind, get_store, ret; simpl;
    now rewrite Hlist.
Qed.

(* ================================================================= *)
(** ** MQTTController.listen: what the block preserves *)

Lemma assoc_app_l {V : Type} (k : string) (d1 d2 : list (string * V)) (v : V) :
  assoc k d1 = Some v -> assoc k (d1 ++ d2) = Some v.
Proof.
  induction d1 as [|[k' v'] rest IH]; simpl; [discriminate|].
  destruct (String.eqb k k'); auto.
Qed.

Lemma assoc_app_r {V : Type} (k : string) (d1 d2 : list (string * V)) :
  assoc k d1 = None -> assoc k (d1 ++ d2) = assoc k d2.
Proof.
  induction d1 as [|[k' v'] rest IH]; simpl; [reflexivity|].
  destruct (String.eqb k k'); [discriminate | auto].
Qed.

Lemma grows_refl (st : state) : grows st st.
Proof.
  constructor; auto.
  - exists []. auto.
  - exists []. now rewrite app_nil_r.
Qed.

Lemma grows_trans (st1 st2 st3 : state) :
  grows st1 st2 -> grows st2 st3 -> grows st1 st3.
Proof.
  intros [(i1 & Hs1 & Hc1) (e1 & Ht1 & Hq1) Hk1 Hd1]
         [(i2 & Hs2 & Hc2) (e2 & Ht2 & Hq2) Hk2 Hd2].
  constructor.
  - exists (i2 ++ i1). rewrite Hs2, Hs1, app_assoc. split; [reflexivity|].
    unfold contexts in *. now rewrite forallb_app, Hc1, Hc2.
  - exists (e1 ++ e2). rewrite Ht2, Ht1, app_assoc. split; [reflexivity|].
    unfold quiet in *. now rewrite forallb_app, Hq1, Hq2.
  - auto.
  - congruence.
Qed.

(** A step that touches neither stack nor trace, topics or data sources. *)
Lemma grows_same (st st' : state) :
  stack st' = stack st ->
  trace st' = trace st ->
  topics (store st') = topics (store st) ->
  data_sources (store st') = data_sources (store st) ->
  grows st st'.
Proof.
  intros Hs Ht Hk Hd. constructor.
  - exists []. auto.
  - exists []. now rewrite app_nil_r.
  - intros k o. now rewrite Hk.
  - exact Hd.
Qed.

Lemma steady_ret {A : Type} (a : A) : steady (ret a).
Proof. intros st. apply grows_refl. Qed.

Lemma steady_raise {A : Type} (e : exn) : steady (@raise A e).
Proof. intros st. apply grows_refl. Qed.

Lemma steady_bind {A B : Type} (m : M A) (k : A -> M B) :
  steady m -> (forall a, steady (k a)) -> steady (bind m k).
Proof.
  intros Hm Hk st. unfold bind. specialize (Hm st).
  destruct (m st) as [[a|e|] st1]; simpl in *; auto.
  eapply grows_trans; [exact Hm | apply Hk].
Qed.

Lemma steady_emit (e : event) : quiet [e] = true -> steady (emit e).
Proof.
  intros Hq st. simpl. constructor; simpl; auto.
  - exists []. auto.
  - exists [e]. auto.
Qed.

Lemma steady_push (i : exit_item) : contexts [i] = true -> steady (push i).
Proof.
  intros Hc st. simpl. constructor; simpl; auto.
  - exists [i]. auto.
  - exists []. now rewrite app_nil_r.
Qed.

Lemma steady_get_store : steady get_store.
Proof. intros st. apply grows_refl. Qed.

Lemma steady_may_raise (r : option exn) : steady (may_raise r).
Proof. destruct r; [apply steady_raise | apply steady_ret]. Qed.

Lemma steady_for_each {A : Type} (xs : list A) (body : A -> M unit) :
  (forall x, steady (body x)) -> steady (for_each xs body).
Proof.
  intros Hbody. induction xs as [|x rest IH]; simpl.
  - apply steady_ret.
  - apply steady_bind; auto.
Qed.

Lemma steady_attr_of (o : MQTTTopic) (name : string) : steady (attr_of o name).
Proof.
  unfold attr_of. destruct (getattr o name); [apply steady_ret | apply steady_raise].
Qed.

Lemma steady_attr_append (o : MQTTTopic) (name : string) (x : pyobj) :
  steady (attr_append o name x).
Proof.
  unfold attr_append. apply steady_bind; [apply steady_attr_of|].
  intros [h|l|s]; try apply steady_raise.
  intros st. apply grows_same; reflexivity.
Qed.

Lemma steady_attr_iter (o : MQTTTopic) (name : string) : steady (attr_iter o name).
Proof.
  unfold attr_iter. apply steady_bind; [apply steady_attr_of|].
  intros [h|l|s]; try apply steady_raise; try apply steady_ret.
  intros st. apply grows_refl.
Qed.

Lemma steady_MQTTTopic_init (topic : string) (h : handler) :
  steady (MQTTTopic_init topic h).
Proof. intros st. rewrite MQTTTopic_init_eq. apply grows_same; reflexivity. Qed.

Lemma steady_construct_all (declared : list (string * handler)) :
  steady (construct_all declared).
Proof.
  induction declared as [|[t h] rest IH]; simpl.
  - apply steady_ret.
  - apply steady_bind; [apply steady_MQTTTopic_init|]. intros o.
    apply steady_bind; [exact IH|]. intros os. apply steady_ret.
Qed.

Lemma steady_register (ds_hl : MQTTTopic) : steady (register ds_hl).
Proof.
  unfold register. apply steady_bind; [apply steady_attr_of|].
  intros [h|l|key]; try apply steady_raise.
  intros st. unfold bind at 1, get_store.
  destruct (assoc key (topics (store st))) as [topic|] eqn:Hkey.
  - apply (@steady_bind _ _ (attr_of ds_hl "handlers")); [apply steady_attr_of|].
    intros x. apply steady_attr_append.
  - simpl. constructor; simpl; auto.
    + exists []. auto.
    + exists []. now rewrite app_nil_r.
    + intros k o Hk. now apply assoc_app_l.
Qed.

Lemma steady_assemble : steady assemble.
Proof.
  unfold assemble. apply steady_bind; [apply steady_get_store|]. intros s.
  apply steady_for_each. intros ds.
  apply steady_bind; [apply steady_construct_all|]. intros os.
  apply steady_for_each. apply steady_register.
Qed.

Lemma steady_create_task (hl : pyobj) (messages : string) :
  steady (create_task hl messages).
Proof.
  destruct hl as [h|l|s]; simpl; try apply steady_raise.
  apply steady_bind; [now apply steady_emit|]. intros _.
  intros st. apply grows_same; reflexivity.
Qed.

Lemma steady_open_topics (items : list (string * MQTTTopic)) (acc : list MQTTTopic) :
  steady (open_topics items acc).
Proof.
  revert acc. induction items as [|[topic_string topic] rest IH]; intros acc; simpl.
  - apply steady_ret.
  - apply steady_bind; [now apply steady_emit|]. intros _.
    apply steady_bind; [now apply steady_push|]. intros _.
    apply steady_bind; [apply steady_attr_iter|]. intros hls.
    apply steady_bind; [|intros _; apply IH].
    apply steady_for_each. intros hl. apply steady_create_task.
Qed.

Lemma steady_gather (w : session) : steady (gather w).
Proof.
  intros st. unfold gather, bind, get_store.
  destruct (tasks (store st)) as [|t ts]; [apply grows_refl|].
  destruct (gather_ends w); simpl; try apply grows_refl;
    apply grows_same; reflexivity.
Qed.

Lemma steady_after_callback (self : MQTTController) (w : session) :
  steady (after_callback self w).
Proof.
  unfold after_callback.
  apply steady_bind; [now apply steady_emit|]. intros _.
  apply steady_bind; [apply steady_may_raise|]. intros _.
  apply steady_bind; [now apply steady_push|]. intros _.
  apply steady_bind; [apply steady_assemble|]. intros _.
  apply steady_bind; [apply steady_get_store|]. intros s.
  apply steady_bind; [apply steady_open_topics|]. intros all_topics.
  apply steady_bind; [now apply steady_emit|]. intros _.
  apply steady_bind; [apply steady_may_raise|]. intros _.
  apply steady_gather.
Qed.

Lemma listen_body_eq (self : MQTTController) (w : session) (st : state) :
  listen_body self w st =
  after_callback self w
    {| store := store st; trace := trace st;
       stack := AsyncCallback [TasksSet] :: stack st |}.
Proof. reflexivity. Qed.

(* ================================================================= *)
(** ** MQTTController.listen: the way out *)

Lemma unwind_app (xs ys : list exit_item) (pending : option exn) (st : state) :
  unwind (xs ++ ys) pending st =
  unwind ys (fst (unwind xs pending st)) (snd (unwind xs pending st)).
Proof.
  revert pending st. induction xs as [|i rest IH]; intros pending st; simpl.
  - reflexivity.
  - destruct (exit_one i st) as [[[]|e|] st1]; apply IH.
Qed.

(** Leaving contexts keeps the pending exception and the store, and
    cancels nothing. *)
Lemma unwind_contexts (items : list exit_item) (pending : option exn) (st : state) :
  contexts items = true ->
  exists evs,
    unwind items pending st =
    (pending, {| store := store st; trace := trace st ++ evs; stack := stack st |})
    /\ quiet evs = true.
Proof.
  revert st. induction items as [|i rest IH]; intros st Hc; simpl in *.
  - exists []. rewrite app_nil_r. now destruct st.
  - apply andb_true_iff in Hc as [Hi Hrest].
    destruct i as [args| |topic_string]; [discriminate| |]; simpl;
      match goal with |- context [unwind rest pending ?s] =>
        destruct (IH s Hrest) as (evs & Hrun & Hq) end;
      rewrite Hrun; simpl; eexists; rewrite <- app_assoc;
      (split; [reflexivity|]); simpl; exact Hq.
Qed.

(** The callback as [listen] pushes it: the call itself raises. *)
Lemma unwind_callback (pending : option exn) (st : state) :
  unwind [AsyncCallback [TasksSet]] pending st = (Some TypeError, st).
Proof. reflexivity. Qed.

Lemma cancellations_quiet (tr evs : list event) :
  quiet evs = true -> cancellations (tr ++ evs) = cancellations tr.
Proof.
  intros Hq. unfold cancellations. rewrite filter_app, length_app.
  assert (Hnone : filter (fun e => match e with Cancel _ _ => true | _ => false end) evs = []).
  { induction evs as [|e rest IH]; [reflexivity|]. simpl in *.
    apply andb_true_iff in Hq as [He Hrest].
    destruct e; try discriminate; auto. }
  rewrite Hnone. simpl. lia.
Qed.

(** When the block is left, the exit stack holds contexts on top of the
    callback that was pushed first. *)
Lemma listen_body_stack (self : MQTTController) (w : session) (st : state) :
  let body := listen_body self w (clear_stack st) in
  exists items evs,
    stack (snd body) = items ++ [AsyncCallback [TasksSet]]
    /\ contexts items = true
    /\ trace (snd body) = trace st ++ evs
    /\ quiet evs = true.
Proof.
  simpl. rewrite listen_body_eq.
  destruct (steady_after_callback self w
              {| store := store (clear_stack st); trace := trace (clear_stack st);
                 stack := AsyncCallback [TasksSet] :: stack (clear_stack st) |})
    as [(items & Hs & Hc) (evs & Ht & Hq) _ _].
  exists items, evs. simpl in *. auto.
Qed.

(** Whenever [listen] is left, by success or by failure, the teardown
    call raises [TypeError] before its body runs: that is what [listen]
    raises, no task is cancelled or awaited, and the store, with every
    task in it, is as the block left it. *)
Lemma listen_exit (self : MQTTController) (w : session) (st : state) :
  let body := listen_body self w (clear_stack st) in
  let after := listen self w st in
  (fst body = Blocked /\ after = body)
  \/
  (fst body <> Blocked
   /\ fst after = Raise TypeError
   /\ store (snd after) = store (snd body)
   /\ cancellations (trace (snd after)) = cancellations (trace st)).
Proof.
  intros body after.
  destruct (listen_body_stack self w st) as (items & evs & Hs & Hc & Ht & Hq).
  fold body in Hs, Ht. subst after. unfold listen. fold body.
  destruct body as [r st1] eqn:Hbody. simpl in Hs, Ht.
  assert (Hunwind : forall pending,
    exists evs',
      unwind (stack st1) pending (clear_stack st1) =
      (Some TypeError,
       {| store := store st1; trace := trace st1 ++ evs'; stack := [] |})
      /\ quiet evs' = true).
  { intros pending. rewrite Hs, unwind_app.
    destruct (unwind_contexts items pending (clear_stack st1) Hc) as (evs' & Hrun & Hq').
    rewrite Hrun. simpl. eauto. }
  destruct r as [[]|e|].
  - right. destruct (Hunwind None) as (evs' & Hrun & Hq'). rewrite Hrun. simpl.
    repeat split; [discriminate|].
    now rewrite Ht, !cancellations_quiet.
  - right. destruct (Hunwind (Some e)) as (evs' & Hrun & Hq'). rewrite Hrun. simpl.
    repeat split; [discriminate|].
    now rewrite Ht, !cancellations_quiet.
  - left. auto.
Qed.

(** [listen] never returns and never raises [MqttError]. *)
Lemma listen_outcome (self : MQTTController) (w : session) (st : state) :
  fst (listen self w st) = Blocked \/ fst (listen self w st) = Raise TypeError.
Proof.
  destruct (listen_exit self w st) as [[Hb Heq] | (_ & Hr & _)].
  - left. now rewrite Heq.
  - now right.
Qed.

(** So the retry loop is left after its first pass: when the first session
    ends, the handler for [MqttError] does not apply, the [finally] clause
    sleeps, and [TypeError] ends the client task.  What the broker would do
    on later attempts plays no role. *)
Lemma client_handler_first_session (self : MQTTController) (w : session)
    (later : list session) (st : state) :
  let st0 := snd (emit (Log INFO "Starting MQTT client") st) in
  client_handler self (w :: later) st =
  match listen self w st0 with
  | (Blocked, st1) => (Suspended, st1)
  | (_, st1) => (Died TypeError, snd (emit (Sleep reconnect_interval) st1))
  end.
Proof.
  simpl. unfold client_handler. simpl.
  destruct (listen_outcome self w (snd (emit (Log INFO "Starting MQTT client") st)))
    as [H|H];
    destruct (listen self w _) as [r st1]; simpl in H; subst r; reflexivity.
Qed.

(** Registrations outlive the session that made them: whatever is in the
    topic map when [listen] starts is there, with the same object, when it
    is left. *)
Lemma topics_survive (self : MQTTController) (w : session) (st : state)
    (k : string) (o : MQTTTopic) :
  assoc k (topics (store st)) = Some o ->
  assoc k (topics (store (snd (listen self w st)))) = Some o.
Proof.
  intros Hk.
  assert (Hbody : assoc k (topics (store (snd (listen_body self w (clear_stack st))))) = Some o).
  { rewrite listen_body_eq.
    apply (grows_topics (steady_after_callback self w _)). exact Hk. }
  destruct (listen_exit self w st) as [[_ Heq] | (_ & _ & Hstore & _)].
  - now rewrite Heq.
  - now rewrite Hstore.
Qed.

(* ================================================================= *)
(** ** Session assembly: what ends up in the topic map *)

(** A loop whose body establishes a fact about its item that later steps
    keep, establishes it for every item. *)
Lemma for_each_post {A : Type} (xs : list A) (body : A -> M unit)
    (P : A -> state -> Prop) :
  (forall x, steady (body x)) ->
  (forall x st st', body x st = (Return tt, st') -> P x st') ->
  (forall x st st', P x st -> grows st st' -> P x st') ->
  forall st st', for_each xs body st = (Return tt, st') ->
  forall x, In x xs -> P x st'.
Proof.
  intros Hsteady Hbody Hkeep.
  induction xs as [|y rest IH]; intros st st' Hrun x Hin; [contradiction|].
  simpl in Hrun. unfold bind in Hrun.
  destruct (body y st) as [[[]|e|] st1] eqn:Hy; try discriminate.
  destruct Hin as [->|Hin].
  - apply Hkeep with (st := st1); [now apply Hbody with (st := st)|].
    pose proof (steady_for_each rest body Hsteady st1) as Hg.
    now rewrite Hrun in Hg.
  - now apply IH with (st := st1).
Qed.

(** [handlers()] returns one object per declared pair, each holding the
    declared topic. *)
Lemma construct_all_topics (declared : list (string * handler)) (st : state) :
  exists os st',
    construct_all declared st = (Return os, st')
    /\ Forall2 (fun o d => topic_is o (fst d)) os declared.
Proof.
  revert st. induction declared as [|[t h] rest IH]; intros st; simpl.
  - exists [], st. split; [reflexivity | constructor].
  - unfold bind at 1. rewrite MQTTTopic_init_eq.
    match goal with |- exists _ _, bind _ _ ?s = _ /\ _ =>
      destruct (IH s) as (os & st' & Hrun & Hall) end.
    unfold bind at 1. rewrite Hrun. simpl.
    eexists _, st'. split; [reflexivity|].
    constructor; [reflexivity | exact Hall].
Qed.

Lemma registered_grows (k : string) (st st' : state) :
  registered k st -> grows st st' -> registered k st'.
Proof.
  intros [o Ho] Hg. exists o. now apply (grows_topics Hg).
Qed.

(** After [register] has returned, the topic of its argument is a key. *)
Lemma register_registers (ds_hl : MQTTTopic) (st st' : state) :
  register ds_hl st = (Return tt, st') ->
  forall k, topic_is ds_hl k -> registered k st'.
Proof.
  intros Hrun k Hk. unfold register, attr_of in Hrun. rewrite Hk in Hrun.
  unfold bind at 1, ret at 1 in Hrun. unfold bind at 1, get_store in Hrun.
  destruct (assoc k (topics (store st))) as [topic|] eqn:Hkey.
  - apply registered_grows with (st := st); [now exists topic|].
    pose proof (@steady_bind _ _ (attr_of ds_hl "handlers")
                  (fun x => attr_append topic "handlers" x)
                  (steady_attr_of ds_hl "handlers")
                  (fun x => steady_attr_append topic "handlers" x) st) as Hg.
    unfold attr_of in Hg. now rewrite Hrun in Hg.
  - inversion Hrun; subst. exists ds_hl. simpl.
    rewrite assoc_app_r by assumption. simpl. now rewrite String.eqb_refl.
Qed.

(** After assembly has returned, every topic that a registered data
    source declares is a key of the topic map. *)
Lemma assemble_registers (st st' : state) :
  assemble st = (Return tt, st') ->
  forall ds t h,
    In ds (data_sources (store st)) -> In (t, h) (ds_declares ds) ->
    registered t st'.
Proof.
  intros Hrun ds t h Hds Hdecl.
  unfold assemble in Hrun. unfold bind at 1, get_store in Hrun.
  set (body := fun ds : DataSource =>
         ds_handlers <- ds_handlers ds ;; for_each ds_handlers register) in Hrun.
  assert (Hsteady : forall x, steady (body x)).
  { intros x. apply steady_bind; [apply steady_construct_all|].
    intros os. apply steady_for_each. apply steady_register. }
  apply (@for_each_post _ (data_sources (store st)) body
           (fun ds st => forall t h, In (t, h) (ds_declares ds) -> registered t st))
    with (st := st) (x := ds) (h := h); auto.
  - clear. intros ds st st' Hrun t h Hin.
    unfold body, ds_handlers, bind in Hrun.
    destruct (construct_all_topics (ds_declares ds) st) as (os & st1 & Hos & Hall).
    rewrite Hos in Hrun.
    assert (Ho : exists o, In o os /\ topic_is o t).
    { clear Hos Hrun. induction Hall as [|o d os' ds' Hod Hrest IH]; [contradiction|].
      destruct Hin as [->|Hin].
      - exists o. split; [now left | exact Hod].
      - destruct (IH Hin) as (o' & Ho' & Ht'). exists o'. split; [now right | exact Ht']. }
    destruct Ho as (o & Ho & Ht).
    apply (@for_each_post _ os register (fun o st => forall k, topic_is o k -> registered k st))
      with (st := st1) (x := o); auto using steady_register.
    + intros x s s' Hx k Hk. eapply register_registers; eauto.
    + intros x s s' Hp Hg k Hk. apply registered_grows with (st := s); auto.
  - intros x s s' Hp Hg t' h' Hin. apply registered_grows with (st := s); eauto.
Qed.

(** C7 (amended).  The topic map belongs to the class and nothing ever
    clears it.  Within a session it only grows: assembly adds a
    registration for a declared topic that has none, so after assembly
    every topic that a registered data source declares is a key, and no
    registration is removed or replaced.  At the end of the session the
    map is not discarded: whatever was registered when the session began,
    by this or by an earlier session, is still registered with the same
    object when [listen] is left, on every way out. *)
Theorem topic_map_persists (self : MQTTController) (w : session) (st : state) :
  (forall k o,
     assoc k (topics (store st)) = Some o ->
     assoc k (topics (store (snd (assemble st)))) = Some o
     /\ assoc k (topics (store (snd (listen self w st)))) = Some o)
  /\
  (forall st' ds t h,
     assemble st = (Return tt, st') ->
     In ds (data_sources (store st)) -> In (t, h) (ds_declares ds) ->
     exists o, assoc t (topics (store st')) = Some o).
Proof.
  split.
  - intros k o Hk. split.
    + now apply (grows_topics (steady_assemble st)).
    + now apply topics_survive.
  - intros st' ds t h Hrun Hds Hin. exact (@assemble_registers st st' Hrun ds t h Hds Hin).
Qed.

(* ================================================================= *)
(** ** The MQTT client at concrete inputs *)

Import Fixtures.

(** C10 at two registrations for different topics, right after import. *)
Lemma MQTTTopic_handlers_shared_witness :
  exists o1 st1 o2 st2,
    MQTTTopic_init "T" "h1" (fresh []) = (Return o1, st1)
    /\ MQTTTopic_init "U" "h2" st1 = (Return o2, st2)
    /\ getattr o1 "topic" = Some (Str "T")
    /\ getattr o2 "topic" = Some (Str "U")
    /\ getattr o1 "handlers" = Some (ListRef handlers_loc)
    /\ getattr o2 "handlers" = Some (ListRef handlers_loc)
    /\ attr_iter o1 "handlers" st2 = (Return [Callable "h1"; Callable "h2"], st2)
    /\ attr_iter o2 "handlers" st2 = (Return [Callable "h1"; Callable "h2"], st2).
Proof.
  apply (@MQTTTopic_handlers_shared "T" "U" "h1" "h2" (fresh [])).
  discriminate.
Defined.

(** C5 at the failing input: two data sources, each declaring one handler
    for ["T"], on a fresh store, with a broker that does its part.  One
    registration is made and one stream is opened, but the handler list
    ends as [[h1, h2, the list itself]]: after two listener tasks the loop
    calls the list, [TypeError] ends the session, and [subscribe] is never
    reached. *)
Theorem same_topic_twice :
  let after := listen broker steady_session (fresh [kitchen; garage]) in
  fst after = Raise TypeError
  /\ topics (store (snd after)) = [("T", first_T)]
  /\ heap_get (heap (store (snd after))) handlers_loc =
     [Callable "h1"; Callable "h2"; ListRef handlers_loc]
  /\ streams (trace (snd after)) = ["T"]
  /\ created (trace (snd after)) = [("h1", "T"); ("h2", "T")]
  /\ subscriptions (trace (snd after)) = []
  /\ trace (snd after) =
     [Connect "broker.local" 1883; FilteredMessages "T";
      CreateTask "h1" "T"; CreateTask "h2" "T";
      CloseStream "T"; Disconnect].
Proof. repeat split. Qed.

(** The same for any two handlers and any session in which the broker
    accepts the connection: the outcome does not depend on what the broker
    or the listeners do afterwards. *)
Lemma same_topic_twice_any_session (self : MQTTController) (w : session)
    (n1 n2 : string) (h1 h2 : handler) :
  connect_raises w = None ->
  let ds1 := {| ds_name := n1; ds_declares := [("T", h1)] |} in
  let ds2 := {| ds_name := n2; ds_declares := [("T", h2)] |} in
  let after := listen self w (fresh [ds1; ds2]) in
  fst after = Raise TypeError
  /\ topics (store (snd after)) = [("T", first_T)]
  /\ heap_get (heap (store (snd after))) handlers_loc =
     [Callable h1; Callable h2; ListRef handlers_loc]
  /\ streams (trace (snd after)) = ["T"]
  /\ created (trace (snd after)) = [(h1, "T"); (h2, "T")]
  /\ subscriptions (trace (snd after)) = [].
Proof.
  destruct w as [c s g f]. simpl. intros ->. repeat split.
Qed.

(** The same when the data sources built their registration objects
    beforehand and [handlers()] only returns them: the registration loop
    puts the list into itself all the same. *)
Lemma same_topic_prebuilt :
  let second_T := {| oid := 1; inst_dict := [("topic", Str "T")] |} in
  let built1 := MQTTTopic_init "T" "h1" (fresh []) in
  let built2 := MQTTTopic_init "T" "h2" (snd built1) in
  let after := for_each [first_T; second_T] register (snd built2) in
  fst built1 = Return first_T
  /\ fst built2 = Return second_T
  /\ fst after = Return tt
  /\ topics (store (snd after)) = [("T", first_T)]
  /\ heap_get (heap (store (snd after))) handlers_loc =
     [Callable "h1"; Callable "h2"; ListRef handlers_loc].
Proof. repeat split. Qed.

(** C4 at the failing input: one data source with one handler, and the
    connection lost while subscribing.  The listener task is running when
    the session is left; the teardown call raises [TypeError] at once, so
    the task is neither cancelled nor awaited and is still running
    afterwards.  The body of [cancel_tasks] would have cancelled it. *)
Theorem teardown_cancels_nothing :
  let after := listen broker subscribe_fails (fresh [kitchen]) in
  fst after = Raise TypeError
  /\ tasks (store (snd after)) = [listener "h1" "T"]
  /\ cancellations (trace (snd after)) = 0
  /\ trace (snd after) =
     [Connect "broker.local" 1883; FilteredMessages "T"; CreateTask "h1" "T";
      Subscribe [first_T]; CloseStream "T"; Disconnect]
  /\ tasks (store (snd (cancel_tasks_body (snd after)))) =
     [{| coro := "h1"; stream := "T"; status := Cancelled |}].
Proof. repeat split. Qed.

(** C6 at the failing input: the broker refuses the first connection and
    would accept the second.  The client sleeps its five seconds once and
    ends with [TypeError]; it connects exactly once. *)
Theorem mqtt_client_gives_up :
  let after := client_handler broker [refused; steady_session] (fresh [kitchen]) in
  fst after = Died TypeError
  /\ trace (snd after) =
     [Log INFO "Starting MQTT client"; Connect "broker.local" 1883; Sleep 5]
  /\ connects (trace (snd after)) = 1.
Proof. repeat split. Qed.

(** C7, as stated, fails: the registration of the first session is in the
    map when that session has ended, and a second session finds and keeps
    it (the object with identity 0, not the one it builds itself); the
    handler declared once is then listed twice. *)
Lemma topic_map_carried_over :
  let first := listen broker subscribe_fails (fresh [kitchen]) in
  let second := listen broker steady_session (snd first) in
  topics (store (snd first)) = [("T", first_T)]
  /\ topics (store (snd second)) = [("T", first_T)]
  /\ next_oid (store (snd second)) = 2
  /\ heap_get (heap (store (snd second))) handlers_loc =
     [Callable "h1"; Callable "h1"; ListRef handlers_loc].
Proof. repeat split. Qed.

(** C7 (amended) at the registration of a first session, seen after a
    second one, and at the topic that the one data source declares. *)
Lemma topic_map_persists_witness :
  let after_first := snd (listen broker subscribe_fails (fresh [kitchen])) in
  assoc "T" (topics (store (snd (listen broker steady_session after_first)))) =
    Some first_T
  /\ exists o, assoc "T" (topics (store (snd (assemble (fresh [kitchen]))))) = Some o.
Proof.
  split.
  - exact (proj2 (proj1 (topic_map_persists broker steady_session
                           (snd (listen broker subscribe_fails (fresh [kitchen]))))
                    "T" first_T eq_refl)).
  - exact (proj2 (topic_map_persists broker steady_session (fresh [kitchen]))
             (snd (assemble (fresh [kitchen]))) kitchen "T" "h1"
             eq_refl (or_introl eq_refl) (or_introl eq_refl)).
Defined.

End MQTTFacts.

(* ================================================================= *)
(** * Further properties of the websocket client *)

Module HASSMore.
Import Py PyFacts HASS HASSFacts.

Section Frames.

Context {payload : Type}.
Variable json_loads : payload -> option value.
Variable json_dumps : value -> payload.

Abbreviation state := (@state payload).
Abbreviation event := (@event payload).

(** X1.  A decoded frame whose type is [auth_required], received while the
    connection takes one more send, is answered with exactly one frame,
    [{"type": "auth", "access_token": token}] with the token of the
    controller; no data source is called, whatever else the frame holds. *)
Theorem on_message_auth_required (self : HASSController) (message : payload)
    (d : list (string * value)) (st : state) :
  json_loads message = Some (JDict d) ->
  dict_get "type" d = Some (JStr "auth_required") ->
  can_send 1 (sends_left st) ->
  on_message json_loads json_dumps self message st =
  (Return tt,
   {| trace := trace st ++
        [Log INFO "Authentication requested";
         Send (json_dumps (JDict [("type", JStr "auth");
                                  ("access_token", JStr (auth_token self))]))];
      sends_left := after_sends 1 (sends_left st) |}).
Proof.
  intros Hload Htype Hsend. unfold on_message. rewrite Hload. unfold dispatch.
  rewrite !type_is_dict, Htype. simpl.
  unfold bind, lift, ret, log, emit, ws_send. simpl.
  unfold can_send, after_sends in *.
  destruct (sends_left st) as [[|k]|]; simpl; try lia;
    rewrite <- ?app_assoc; simpl; try reflexivity.
  now rewrite Nat.sub_0_r.
Qed.

(** X2.  A decoded frame whose type is [auth_invalid] is reported with one
    ERROR log record and nothing else: nothing is sent, no data source is
    called, [on_message] returns, and the receive loop goes on with the
    next frame on the same connection. *)
Theorem on_message_auth_invalid (self : HASSController) (message : payload)
    (d : list (string * value)) (rest : list payload) (fin : recv_end)
    (st : state) :
  json_loads message = Some (JDict d) ->
  dict_get "type" d = Some (JStr "auth_invalid") ->
  on_message json_loads json_dumps self message st =
    (Return tt,
     {| trace := trace st ++ [Log ERROR "Authentication failed"];
        sends_left := sends_left st |})
  /\ recv_loop json_loads json_dumps self (message :: rest) fin st =
     recv_loop json_loads json_dumps self rest fin
       {| trace := trace st ++
            [Recv message; Log DEBUG "Received message";
             Log ERROR "Authentication failed"];
          sends_left := sends_left st |}.
Proof.
  intros Hload Htype.
  assert (Hmsg : forall s : state,
    on_message json_loads json_dumps self message s =
    (Return tt,
     {| trace := trace s ++ [Log ERROR "Authentication failed"];
        sends_left := sends_left s |})).
  { intros s. unfold on_message. rewrite Hload. unfold dispatch.
    rewrite !type_is_dict, Htype. reflexivity. }
  split; [apply Hmsg|].
  simpl. unfold bind at 1 2. unfold emit at 1, log at 1, emit at 1.
  rewrite Hmsg. simpl. now rewrite <- !app_assoc.
Qed.

(** X3.  A frame with one of the three handshake types is classified by
    its type alone: whatever other keys it carries (an id, an event, a
    result), [on_message] does exactly what it does for the frame that
    holds only the type. *)
Theorem handshake_frame_by_type_alone (self : HASSController)
    (message bare : payload) (d : list (string * value)) (t : value)
    (st : state) :
  json_loads message = Some (JDict d) ->
  dict_get "type" d = Some t ->
  auth_type t = true ->
  json_loads bare = Some (JDict [("type", t)]) ->
  on_message json_loads json_dumps self message st =
  on_message json_loads json_dumps self bare st.
Proof.
  intros Hload Htype Hauth Hbare. unfold on_message. rewrite Hload, Hbare.
  unfold dispatch. rewrite !type_is_dict, Htype. simpl dict_get.
  unfold auth_type in Hauth.
  destruct (eq_str t "auth_required"); [reflexivity|].
  destruct (eq_str t "auth_invalid"); [reflexivity|].
  destruct (eq_str t "auth_ok"); [reflexivity | discriminate].
Qed.

(** X4.  Frames that are not objects.  A number, a boolean or null makes
    the first test raise [TypeError] before anything is logged.  A list is
    searched for the element ["type"] and a string for the substring
    [type]: when it is found the subscript that follows raises [TypeError],
    otherwise the frame is logged as unknown and ignored. *)
Theorem on_message_not_an_object (self : HASSController) (message : payload)
    (v : value) (st : state) :
  json_loads message = Some v ->
  let raises := (Raise TypeError, st) in
  let ignores :=
    (Return tt,
     {| trace := trace st ++ [Log DEBUG "Unknown/unhandled message received"];
        sends_left := sends_left st |}) in
  match v with
  | JDict _ => True
  | JList items =>
      on_message json_loads json_dumps self message st =
      if existsb (fun x => eq_str x "type") items then raises else ignores
  | JStr s =>
      on_message json_loads json_dumps self message st =
      if is_substring "type" s then raises else ignores
  | _ => on_message json_loads json_dumps self message st = raises
  end.
Proof.
  intros Hload. unfold on_message. rewrite Hload.
  destruct v as [ |b|n|f|s|items|d]; simpl; try reflexivity; try exact I.
  - unfold dispatch, type_is, id_is. simpl.
    destruct (is_substring "type" s); reflexivity.
  - unfold dispatch, type_is, id_is. simpl.
    destruct (existsb (fun x => eq_str x "type") items); reflexivity.
Qed.


(** *** What one frame can cause *)

Lemma getitem_error (v : value) (k : string) (e : exn) :
  getitem v k = Err e -> message_error e = true.
Proof.
  unfold getitem. destruct v; try (intros H; inversion H; reflexivity).
  destruct (dict_get k items); intros H; inversion H; reflexivity.
Qed.

Lemma iter_error (v : value) (e : exn) :
  iter v = Err e -> message_error e = true.
Proof. destruct v; simpl; intros H; inversion H; reflexivity. Qed.

(** The loop of the event branch calls nothing but
    [parse_incremental_update]. *)
Lemma incremental_loop_causes (dss : list DataSource) (message : value) :
  causes
    (for_each dss (fun ds =>
       ev <- lift (getitem message "event") ;;
       data <- lift (getitem ev "data") ;;
       emit (ParseIncremental ds data)))
    (fun evs : list event =>
       sent evs = [] /\ forallb log_or_incremental evs = true).
Proof.
  intros st.
  assert (Hfail : forall e, message_error e = true ->
    exists evs,
      trace (snd (for_each dss (fun ds : DataSource => @raise payload unit e) st)) =
        trace st ++ evs
      /\ (sent evs = [] /\ forallb log_or_incremental evs = true)
      /\ (forall e', fst (for_each dss (fun ds : DataSource => @raise payload unit e) st)
                     = Raise e' -> message_error e' = true)).
  { intros e He. exists []. rewrite app_nil_r.
    destruct dss as [|ds rest]; simpl; repeat split; try discriminate.
    intros e' H. inversion H. now subst. }
  destruct (getitem message "event") as [ev|e] eqn:Hev.
  - destruct (getitem ev "data") as [data|e] eqn:Hd.
    + rewrite for_each_ext with (g := fun ds => emit (ParseIncremental ds data))
        by (intros ds s; now rewrite bind_lift_Ok, Hd, bind_lift_Ok).
      rewrite for_each_emit. simpl. eexists. split; [reflexivity|].
      split; [split|intros e H; discriminate].
      * unfold sent. clear. induction dss; simpl; auto.
      * clear. induction dss; simpl; auto.
    + rewrite for_each_ext with (g := fun ds : DataSource => raise e)
        by (intros ds s; now rewrite bind_lift_Ok, Hd).
      apply Hfail. eapply getitem_error; eauto.
  - rewrite for_each_ext with (g := fun ds : DataSource => raise e)
      by (intros ds s; reflexivity).
    apply Hfail. eapply getitem_error; eauto.
Qed.

Lemma bulk_loop_events (dss : list DataSource) (items : list value) :
  let evs : list event :=
    flat_map (fun x => map (fun ds => ParseBulk ds x) dss) items in
  sent evs = [] /\ forallb log_or_bulk evs = true.
Proof.
  simpl. induction items as [|x rest [IHs IHb]]; simpl; [auto|].
  unfold sent in *. rewrite flat_map_app, forallb_app, IHs, IHb, app_nil_r.
  split.
  - clear. induction dss; simpl; auto.
  - rewrite andb_true_r. clear. induction dss; simpl; auto.
Qed.

Ltac leaf :=
  first
    [ exists []; rewrite app_nil_r; split; [reflexivity|]
    | eexists; split; [simpl; rewrite <- ?app_assoc; simpl; reflexivity|] ];
  (split;
   [ first [ left; simpl; split; [lia | reflexivity]
           | right; left; simpl; split; reflexivity
           | right; right; simpl; split; reflexivity ]
   | intros ? H; inversion H; subst; reflexivity ]).

(** Every way through [dispatch]: what it adds to the trace is of one of
    the three kinds, and the exceptions it lets out are [TypeError],
    [KeyError] and the [ConnectionClosed] of a send. *)
Lemma dispatch_causes (self : HASSController) (v : value) :
  causes (dispatch json_dumps self v) frame_effect.
Proof.
  intros st.
  destruct v as [ |b|n|f|s|items|d];
    try (unfold dispatch, type_is; simpl; leaf).
  - unfold dispatch, type_is, id_is. simpl.
    destruct (is_substring "type" s); simpl; leaf.
  - unfold dispatch, type_is, id_is. simpl.
    destruct (existsb (fun x => eq_str x "type") items); simpl; leaf.
  - destruct (dict_get "type" d) as [t|] eqn:Htype;
      [|rewrite dispatch_without_type by assumption; unfold log, emit; leaf].
    destruct (auth_type t) eqn:Hauth.
    + unfold dispatch. rewrite !type_is_dict, Htype. unfold auth_type in Hauth.
      destruct (eq_str t "auth_required").
      { unfold bind, lift, ret, log, emit, ws_send. simpl.
        destruct (sends_left st) as [[|k]|]; simpl; leaf. }
      destruct (eq_str t "auth_invalid").
      { unfold bind, lift, ret, log, emit. simpl. leaf. }
      destruct (eq_str t "auth_ok"); [|discriminate].
      unfold bind, lift, ret, log, emit, ws_send. simpl.
      destruct (sends_left st) as [[|[|k]]|]; simpl; leaf.
    + rewrite (@dispatch_by_id _ json_dumps self d t st Htype Hauth).
      destruct (dict_get "id" d) as [i|]; [|leaf].
      destruct (eq_int i event_rq_id).
      * rewrite bind_log.
        destruct (negb (truthy (safekey (JDict d) "event/data")));
          [unfold ret; leaf|].
        match goal with |- context [for_each _ _ ?s] =>
          destruct (incremental_loop_causes (data_sources self) (JDict d) s)
            as (evs & Htr & [Hs Hk] & Herr) end.
        exists (Log DEBUG "Potential event update received" :: evs).
        split; [rewrite Htr; simpl; rewrite <- app_assoc; reflexivity|].
        split; [|exact Herr].
        right. left. simpl. unfold sent in *. simpl. auto.
      * destruct (eq_int i bulk_rq_id); [|unfold log, emit; leaf].
        rewrite bind_log. unfold get.
        assert (Hget : exists r,
          match dict_get "result" d with Some x => Ok x | None => Ok JNull end = Ok r).
        { destruct (dict_get "result" d); eauto. }
        destruct Hget as [r ->]. rewrite bind_lift_Ok.
        destruct (is_None r); [unfold ret; leaf|].
        rewrite bind_log.
        destruct (iter r) as [bulk_update|e] eqn:Hiter.
        -- rewrite bind_lift_Ok, (for_each_records (fun ds x => ParseBulk ds x)).
           simpl. eexists. split; [rewrite <- !app_assoc; simpl; reflexivity|].
           destruct (bulk_loop_events (data_sources self) bulk_update) as [Hs Hk].
           split; [|intros e H; discriminate].
           right. right. unfold sent in *. simpl. auto.
        -- unfold bind, lift, raise. simpl.
           eexists. split; [rewrite <- !app_assoc; simpl; reflexivity|].
           split; [right; right; simpl; auto|].
           intros e' H. inversion H. subst. eapply iter_error; eauto.
Qed.

Lemma on_message_causes (self : HASSController) (message : payload) :
  causes (on_message json_loads json_dumps self message) frame_effect.
Proof.
  unfold on_message. destruct (json_loads message) as [v|].
  - apply dispatch_causes.
  - intros st. unfold raise. leaf.
Qed.


(** *** Counting in traces *)

Lemma created_tasks_app (tr1 tr2 : list event) :
  created_tasks (tr1 ++ tr2) = created_tasks tr1 + created_tasks tr2.
Proof. unfold created_tasks. now rewrite filter_app, length_app. Qed.

Lemma closes_app (tr1 tr2 : list event) :
  closes (tr1 ++ tr2) = closes tr1 + closes tr2.
Proof. unfold closes. now rewrite filter_app, length_app. Qed.

(** What a frame causes holds no sleep, no connection attempt, no task
    creation and no close. *)
Lemma frame_effect_counts (evs : list event) :
  frame_effect evs ->
  sleeps evs = [] /\ connects evs = 0 /\ created_tasks evs = 0 /\ closes evs = 0.
Proof.
  assert (Hkind : forall p : event -> bool,
    (forall e, p e = true ->
       match e with
       | Send _ | ParseIncremental _ _ | ParseBulk _ _ | Log _ _ => True
       | _ => False
       end) ->
    forallb p evs = true ->
    sleeps evs = [] /\ connects evs = 0 /\ created_tasks evs = 0 /\ closes evs = 0).
  { intros p Hp. induction evs as [|e rest IH]; simpl; [auto|].
    intros H. apply andb_true_iff in H as [He Hrest].
    destruct (IH Hrest) as (H1 & H2 & H3 & H4). specialize (Hp e He).
    unfold connects, created_tasks, closes in *.
    destruct e; simpl; try contradiction; auto. }
  intros [[_ H] | [[_ H] | [_ H]]]; revert H; apply Hkind;
    intros e; destruct e; simpl; try discriminate; auto.
Qed.

Ltac count :=
  rewrite ?sleeps_app, ?connects_app, ?created_tasks_app, ?closes_app;
  unfold connects, created_tasks, closes in *; simpl in *.

Lemma recv_loop_cons (self : HASSController) (p : payload)
    (rest : list payload) (fin : recv_end) (st : state) :
  recv_loop json_loads json_dumps self (p :: rest) fin st =
  match on_message json_loads json_dumps self p
          {| trace := (trace st ++ [Recv p]) ++ [Log DEBUG "Received message"];
             sends_left := sends_left st |} with
  | (Return _, st1) => recv_loop json_loads json_dumps self rest fin st1
  | (Raise e, st1) =>
      if is_ConnectionClosed e then on_connection_closed st1 else (Raise e, st1)
  | (Blocked, st1) => (Blocked, st1)
  end.
Proof. reflexivity. Qed.

(** The receive loop connects and closes nothing, and it sleeps, exactly
    once and for 10 seconds, exactly when it creates the next task and
    returns. *)
Lemma recv_loop_counts (self : HASSController) (frames : list payload)
    (fin : recv_end) (st : state) :
  let r := recv_loop json_loads json_dumps self frames fin st in
  exists evs,
    trace (snd r) = trace st ++ evs
    /\ connects evs = 0 /\ closes evs = 0
    /\ match fst r with
       | Return _ => sleeps evs = [10] /\ created_tasks evs = 1
       | _ => sleeps evs = [] /\ created_tasks evs = 0
       end.
Proof.
  revert st. induction frames as [|p rest IH]; intros st; cbv zeta.
  - simpl. destruct fin as [e|].
    + destruct (is_ConnectionClosed e).
      * unfold on_connection_closed, bind, log, emit. simpl.
        eexists. split; [rewrite <- !app_assoc; simpl; reflexivity|].
        repeat split.
      * exists []. rewrite app_nil_r. repeat split.
    + exists []. rewrite app_nil_r. repeat split.
  - rewrite recv_loop_cons.
    match goal with |- context [on_message _ _ _ _ ?s] =>
      destruct (on_message_causes self p s) as (evs1 & Htr & Heff & _);
      destruct (on_message json_loads json_dumps self p s) as [[[]|e|] st1]
    end; simpl in Htr;
      destruct (frame_effect_counts Heff) as (H1 & H2 & H3 & H4).
    + destruct (IH st1) as (evs2 & Htr2 & Hc & Hl & Hend).
      exists ([Recv p; Log DEBUG "Received message"] ++ evs1 ++ evs2).
      split; [rewrite Htr2, Htr, <- !app_assoc; reflexivity|].
      revert Hend.
      destruct (fst (recv_loop json_loads json_dumps self rest fin st1));
        intros [Hs Hcr]; count; rewrite H1, Hs; simpl; repeat split; lia.
    + destruct (is_ConnectionClosed e).
      * unfold on_connection_closed, bind, log, emit. simpl.
        exists ([Recv p; Log DEBUG "Received message"] ++ evs1 ++
                [Log ERROR "Lost connection to websocket server";
                 Log INFO "Reconnecting in 10..."; Sleep 10; CreateTask]).
        split; [rewrite Htr, <- !app_assoc; reflexivity|].
        count. rewrite H1. simpl. repeat split; lia.
      * exists ([Recv p; Log DEBUG "Received message"] ++ evs1).
        split; [simpl; rewrite Htr, <- !app_assoc; reflexivity|].
        count. rewrite H1. simpl. repeat split; lia.
    + exists ([Recv p; Log DEBUG "Received message"] ++ evs1).
      split; [simpl; rewrite Htr, <- !app_assoc; reflexivity|].
      count. rewrite H1. simpl. repeat split; lia.
Qed.

(** X7.  The delay of the websocket client is fixed.  Whatever the server
    does, over any number of attempts: every sleep in the trace lasts 10
    seconds and there are as many sleeps as created tasks; every task makes
    at most one connection attempt (when the input is used up, each attempt
    has ended in a sleep and a new task; otherwise the attempts are one
    more than the tasks created); and no connection is left more often
    than one was attempted. *)
Theorem client_handler_fixed_delay (self : HASSController)
    (world : list attempt) (tr : list event) :
  let r := client_handler json_loads json_dumps self world tr in
  exists evs,
    snd r = tr ++ evs
    /\ sleeps evs = repeat 10 (created_tasks evs)
    /\ closes evs <= connects evs
    /\ connects evs <= length world
    /\ match fst r with
       | Horizon => connects evs = created_tasks evs
                    /\ connects evs = length world
       | _ => connects evs = created_tasks evs + 1
       end.
Proof.
  revert tr. induction world as [|a later IH]; intros tr; cbv zeta.
  - exists []. rewrite app_nil_r. simpl. repeat split; auto.
  - simpl client_handler.
    set (tr0 := tr ++ [Log INFO "Starting websocket client"; Connect (url self)]).
    assert (Hnext : forall mid : list event,
      sleeps mid = [10] -> created_tasks mid = 1 ->
      connects mid = 0 -> closes mid <= 1 ->
      let r := client_handler json_loads json_dumps self later (tr0 ++ mid) in
      exists evs,
        snd r = tr ++ evs
        /\ sleeps evs = repeat 10 (created_tasks evs)
        /\ closes evs <= connects evs
        /\ connects evs <= S (length later)
        /\ match fst r with
           | Horizon => connects evs = created_tasks evs
                        /\ connects evs = S (length later)
           | _ => connects evs = created_tasks evs + 1
           end).
    { intros mid Hs Hcr Hco Hcl. cbv zeta.
      destruct (IH (tr0 ++ mid)) as (evs & Htr & Hsl & Hle & Hlen & Hend).
      exists ([Log INFO "Starting websocket client"; Connect (url self)] ++ mid ++ evs).
      split; [rewrite Htr; unfold tr0; now rewrite <- !app_assoc|].
      rewrite !sleeps_app, !connects_app, !created_tasks_app, !closes_app.
      rewrite Hs, Hcr, Hco, Hsl.
      change (sleeps [Log INFO "Starting websocket client"; Connect (url self)])
        with (@nil nat).
      change (connects [Log INFO "Starting websocket client"; Connect (url self)])
        with 1.
      change (created_tasks [Log INFO "Starting websocket client"; Connect (url self)])
        with 0.
      change (closes [Log INFO "Starting websocket client"; Connect (url self)])
        with 0.
      simpl. repeat split; try lia.
      destruct (fst (client_handler json_loads json_dumps self later (tr0 ++ mid)));
        lia. }
    assert (Hstop : forall (mid : list event) (e : task_end),
      e <> Horizon ->
      sleeps mid = [] -> created_tasks mid = 0 ->
      connects mid = 0 -> closes mid <= 1 ->
      exists evs,
        tr0 ++ mid = tr ++ evs
        /\ sleeps evs = repeat 10 (created_tasks evs)
        /\ closes evs <= connects evs
        /\ connects evs <= S (length later)
        /\ match e with
           | Horizon => connects evs = created_tasks evs
                        /\ connects evs = S (length later)
           | _ => connects evs = created_tasks evs + 1
           end).
    { intros mid e He Hs Hcr Hco Hcl.
      exists ([Log INFO "Starting websocket client"; Connect (url self)] ++ mid).
      split; [unfold tr0; now rewrite <- !app_assoc|].
      rewrite !sleeps_app, !connects_app, !created_tasks_app, !closes_app.
      rewrite Hs, Hcr, Hco.
      change (sleeps [Log INFO "Starting websocket client"; Connect (url self)])
        with (@nil nat).
      change (connects [Log INFO "Starting websocket client"; Connect (url self)])
        with 1.
      change (created_tasks [Log INFO "Starting websocket client"; Connect (url self)])
        with 0.
      change (closes [Log INFO "Starting websocket client"; Connect (url self)])
        with 0.
      simpl. repeat split; try lia.
      destruct e; try lia. congruence. }
    destruct a as [e|s].
    + destruct (caught_outside e).
      * apply (Hnext unable_to_connect); reflexivity || (cbv; lia).
      * simpl. rewrite <- (app_nil_r tr0).
        apply (Hstop [] (Died e)); try reflexivity; try discriminate. cbv; lia.
    + destruct (recv_loop_counts self (inbox s) (inbox_end s)
                  {| trace := tr0; sends_left := peer_sends s |})
        as (evs1 & Htr1 & Hc1 & Hl1 & Hend1).
      revert Htr1 Hend1.
      destruct (recv_loop json_loads json_dumps self (inbox s) (inbox_end s) _)
        as [[[]|e|] st1]; simpl; intros Htr1 [Hs1 Hcr1]; rewrite Htr1.
      * rewrite <- app_assoc. apply Hnext.
        -- rewrite sleeps_app, Hs1. reflexivity.
        -- rewrite created_tasks_app, Hcr1. reflexivity.
        -- rewrite connects_app, Hc1. reflexivity.
        -- rewrite closes_app, Hl1. simpl. cbv. lia.
      * destruct (caught_outside e).
        -- rewrite <- !app_assoc. apply Hnext.
           ++ rewrite sleeps_app, Hs1. reflexivity.
           ++ rewrite created_tasks_app, Hcr1. reflexivity.
           ++ rewrite connects_app, Hc1. reflexivity.
           ++ rewrite closes_app, Hl1. cbv. lia.
        -- simpl. rewrite <- app_assoc.
           apply (Hstop (evs1 ++ [Close]) (Died e)); try discriminate.
           ++ rewrite sleeps_app, Hs1. reflexivity.
           ++ rewrite created_tasks_app, Hcr1. reflexivity.
           ++ rewrite connects_app, Hc1. reflexivity.
           ++ rewrite closes_app, Hl1. cbv. lia.
      * apply (Hstop evs1 Suspended); try discriminate; auto. lia.
Qed.

(** X8.  A connection that closes in the middle of the answer to
    [auth_ok].  When the peer takes one more send only, the subscription
    request goes out, the send of the snapshot request raises
    [ConnectionClosed], and the receive loop treats it like a closed
    connection on receive: it logs, sleeps 10 seconds, creates the next
    task and returns, without receiving the frames that would follow. *)
Theorem auth_ok_on_closing_connection (self : HASSController)
    (message : payload) (d : list (string * value)) (rest : list payload)
    (fin : recv_end) (st : state) :
  json_loads message = Some (JDict d) ->
  dict_get "type" d = Some (JStr "auth_ok") ->
  sends_left st = Some 1 ->
  on_message json_loads json_dumps self message st =
    (Raise ConnectionClosed,
     {| trace := trace st ++
          [Log INFO "Authentication successful";
           Send (json_dumps subscribe_command);
           Log INFO "Event update request sent"];
        sends_left := Some 0 |})
  /\ recv_loop json_loads json_dumps self (message :: rest) fin st =
     (Return tt,
      {| trace := trace st ++
           [Recv message; Log DEBUG "Received message";
            Log INFO "Authentication successful";
            Send (json_dumps subscribe_command);
            Log INFO "Event update request sent";
            Log ERROR "Lost connection to websocket server";
            Log INFO "Reconnecting in 10...";
            Sleep 10; CreateTask];
         sends_left := Some 0 |}).
Proof.
  intros Hload Htype Hleft.
  assert (Hmsg : forall s : state, sends_left s = Some 1 ->
    on_message json_loads json_dumps self message s =
    (Raise ConnectionClosed,
     {| trace := trace s ++
          [Log INFO "Authentication successful";
           Send (json_dumps subscribe_command);
           Log INFO "Event update request sent"];
        sends_left := Some 0 |})).
  { intros s Hs. unfold on_message. rewrite Hload. unfold dispatch.
    rewrite !type_is_dict, Htype. simpl.
    unfold bind, lift, ret, log, emit, ws_send. simpl. rewrite Hs. simpl.
    now rewrite <- !app_assoc. }
  split; [now apply Hmsg|].
  rewrite recv_loop_cons, Hmsg by exact Hleft. simpl.
  unfold on_connection_closed, bind, log, emit. simpl.
  now rewrite <- !app_assoc.
Qed.

(** X9.  An exception that [on_message] lets out and that is not
    [ConnectionClosed] is none that [client_handler] catches.  When the
    frames before were handled and the next frame makes [on_message] raise
    such an exception (a decode error, a [KeyError], a [TypeError]), the
    connection context is left and the client task ends with that
    exception: nothing is logged about it, no sleep and no new task follow,
    and the attempts that the server would accept afterwards are never
    made. *)
Theorem uncaught_exception_ends_client (self : HASSController)
    (before : list payload) (p : payload) (rest : list payload)
    (fin : recv_end) (budget : option nat) (later : list attempt)
    (tr : list event) (st' st2 : state) (e : exn) :
  recv_loop json_loads json_dumps self before RecvBlocks
    {| trace := tr ++ [Log INFO "Starting websocket client"; Connect (url self)];
       sends_left := budget |} = (Blocked, st') ->
  on_message json_loads json_dumps self p
    {| trace := (trace st' ++ [Recv p]) ++ [Log DEBUG "Received message"];
       sends_left := sends_left st' |} = (Raise e, st2) ->
  e <> ConnectionClosed ->
  client_handler json_loads json_dumps self
    (Connected {| inbox := before ++ p :: rest; inbox_end := fin;
                  peer_sends := budget |} :: later) tr =
  (Died e, trace st2 ++ [Close]).
Proof.
  intros Hbefore Hmsg Hne.
  assert (Hkind : caught_outside e = false /\ is_ConnectionClosed e = false).
  { destruct (on_message_causes self p
                {| trace := (trace st' ++ [Recv p]) ++ [Log DEBUG "Received message"];
                   sends_left := sends_left st' |}) as (_ & _ & _ & Herr).
    rewrite Hmsg in Herr. specialize (Herr e eq_refl).
    destruct e; try discriminate; try congruence; auto. }
  destruct Hkind as [Hout Hin].
  simpl.
  rewrite (@recv_loop_app _ json_loads json_dumps self before (p :: rest) fin _ _ Hbefore).
  rewrite recv_loop_cons, Hmsg, Hin, Hout. reflexivity.
Qed.

End Frames.

(** *** The statements at concrete frames *)

Import Fixtures.

(** X1 at the first frame of a server that announces its version. *)
Lemma on_message_auth_required_witness :
  on_message wire_loads wire_dumps home (Json frame_auth_required_versioned) idle =
  (Return tt,
   {| trace := [Log INFO "Authentication requested";
                Send (Json (JDict [("type", JStr "auth");
                                   ("access_token", JStr "X")]))];
      sends_left := None |}).
Proof.
  exact (@on_message_auth_required wire wire_loads wire_dumps home
           (Json frame_auth_required_versioned) _ idle eq_refl eq_refl I).
Defined.

(** X2 at the frame [auth_invalid], followed by one more frame. *)
Lemma on_message_auth_invalid_witness :
  on_message wire_loads wire_dumps home (Json frame_auth_invalid) idle =
    (Return tt,
     {| trace := [Log ERROR "Authentication failed"]; sends_left := None |})
  /\ recv_loop wire_loads wire_dumps home
       [Json frame_auth_invalid; Json frame_pong] RecvBlocks idle =
     recv_loop wire_loads wire_dumps home [Json frame_pong] RecvBlocks
       {| trace := [Recv (Json frame_auth_invalid); Log DEBUG "Received message";
                    Log ERROR "Authentication failed"];
          sends_left := None |}.
Proof.
  exact (@on_message_auth_invalid wire wire_loads wire_dumps home
           (Json frame_auth_invalid) _ [Json frame_pong] RecvBlocks idle
           eq_refl eq_refl).
Defined.

(** X3 at an [auth_ok] frame that also carries the event id and data. *)
Lemma handshake_frame_by_type_alone_witness :
  on_message wire_loads wire_dumps home (Json frame_auth_ok_id1) idle =
  on_message wire_loads wire_dumps home (Json frame_auth_ok) idle.
Proof.
  exact (@handshake_frame_by_type_alone wire wire_loads wire_dumps home
           (Json frame_auth_ok_id1) (Json frame_auth_ok) _ (JStr "auth_ok") idle
           eq_refl eq_refl eq_refl eq_refl).
Defined.

(** X4 at a list without the element ["type"] and at a number. *)
Lemma on_message_not_an_object_witness :
  on_message wire_loads wire_dumps home (Json frame_list) idle =
    (Return tt,
     {| trace := [Log DEBUG "Unknown/unhandled message received"];
        sends_left := None |})
  /\ on_message wire_loads wire_dumps home (Json (JInt 5)) idle =
     (Raise TypeError, idle).
Proof.
  split.
  - exact (@on_message_not_an_object wire wire_loads wire_dumps home
             (Json frame_list) frame_list idle eq_refl).
  - exact (@on_message_not_an_object wire wire_loads wire_dumps home
             (Json (JInt 5)) (JInt 5) idle eq_refl).
Defined.


(** X8 at the frame [auth_ok], with one more frame waiting. *)
Lemma auth_ok_on_closing_connection_witness :
  recv_loop wire_loads wire_dumps home
    [Json frame_auth_ok; Json frame_event] RecvBlocks closing =
  (Return tt,
   {| trace := [Recv (Json frame_auth_ok); Log DEBUG "Received message";
                Log INFO "Authentication successful";
                Send (Json subscribe_command);
                Log INFO "Event update request sent";
                Log ERROR "Lost connection to websocket server";
                Log INFO "Reconnecting in 10...";
                Sleep 10; CreateTask];
      sends_left := Some 0 |}).
Proof.
  exact (proj2 (@auth_ok_on_closing_connection wire wire_loads wire_dumps home
                  (Json frame_auth_ok) _ [Json frame_event] RecvBlocks closing
                  eq_refl eq_refl eq_refl)).
Defined.

(** X9 at a frame with a type and no id, after the first handshake frame. *)
Lemma uncaught_exception_ends_client_witness :
  client_handler wire_loads wire_dumps home
    [waiting [Json frame_auth_required; Json frame_pong; Json frame_event];
     waiting []] [] =
  (Died KeyError,
   [Log INFO "Starting websocket client";
    Connect "ws://hass.local:8123/api/websocket";
    Recv (Json frame_auth_required); Log DEBUG "Received message";
    Log INFO "Authentication requested"; Send (Json (auth_response home));
    Recv (Json frame_pong); Log DEBUG "Received message";
    Close]).
Proof.
  exact (@uncaught_exception_ends_client wire wire_loads wire_dumps home
           [Json frame_auth_required] (Json frame_pong) [Json frame_event]
           RecvBlocks None [waiting []] [] _ _ KeyError
           eq_refl eq_refl ltac:(discriminate)).
Defined.

(** X10 at a frame without type and at a frame with an id of its own. *)
Lemma on_message_unknown_witness :
  on_message wire_loads wire_dumps home (Json frame_event_without_type) idle =
    (Return tt,
     {| trace := [Log DEBUG "Unknown/unhandled message received"];
        sends_left := None |})
  /\ on_message wire_loads wire_dumps home
       (Json (JDict [("id", JInt 7); ("type", JStr "pong")])) idle =
     (Return tt,
      {| trace := [Log DEBUG "Unknown/unhandled message received"];
         sends_left := None |}).
Proof.
  split.
  - exact (@on_message_unknown wire wire_loads wire_dumps home
             (Json frame_event_without_type) _ idle eq_refl (or_introl eq_refl)).
  - refine (@on_message_unknown wire wire_loads wire_dumps home
              (Json (JDict [("id", JInt 7); ("type", JStr "pong")])) _ idle
              eq_refl (or_intror _)).
    exists (JStr "pong"), (JInt 7). repeat split.
Defined.

(** X11 at three failures in a row: name resolution, a connection closed
    at once, a failed handshake. *)
Lemma client_handler_retries_witness :
  exists tr',
    client_handler wire_loads wire_dumps home
      [ConnectRaises gaierror; closed_at_once; ConnectRaises InvalidHandshake] [] =
    (Horizon, tr')
    /\ sleeps tr' = [10; 10; 10]
    /\ connects tr' = 3.
Proof.
  exact (@client_handler_retries wire wire_loads wire_dumps home
           [ConnectRaises gaierror; closed_at_once; ConnectRaises InvalidHandshake]
           [] eq_refl).
Defined.

(** X12 at a connection that is closed after the handshake. *)
Lemma client_handler_reconnects_after_close_witness :
  client_handler wire_loads wire_dumps home
    [Connected {| inbox := [Json frame_auth_required; Json frame_auth_ok];
                  inbox_end := RecvRaises ConnectionClosed;
                  peer_sends := None |}] [] =
  (Horizon,
   [Log INFO "Starting websocket client";
    Connect "ws://hass.local:8123/api/websocket";
    Recv (Json frame_auth_required); Log DEBUG "Received message";
    Log INFO "Authentication requested"; Send (Json (auth_response home));
    Recv (Json frame_auth_ok); Log DEBUG "Received message";
    Log INFO "Authentication successful"; Send (Json subscribe_command);
    Log INFO "Event update request sent"; Send (Json get_states_command);
    Log INFO "All states request sent";
    Log ERROR "Lost connection to websocket server";
    Log INFO "Reconnecting in 10...";
    Sleep 10; CreateTask; Close]).
Proof.
  exact (@client_handler_reconnects_after_close wire wire_loads wire_dumps home
           [Json frame_auth_required; Json frame_auth_ok] None [] [] _ eq_refl).
Defined.

End HASSMore.

(* ================================================================= *)
(** * Further properties of the MQTT client *)

Module MQTTMore.
Import Py MQTT MQTTFacts.

(** ** cancel_tasks *)

Lemma cancelled_done (t : Task) : done (cancelled t) = true.
Proof. unfold cancelled, done. destruct (status t) eqn:H; simpl; now rewrite ?H. Qed.

Lemma cancelled_of_done (t : Task) : done t = true -> cancelled t = t.
Proof. unfold cancelled. now intros ->. Qed.

Lemma cancel_events_length (ts : list Task) :
  length (cancel_events ts) = length (pending ts).
Proof.
  unfold cancel_events, pending. induction ts as [|t rest IH]; simpl; [reflexivity|].
  destruct (done t); simpl; now rewrite IH.
Qed.

Lemma cancellations_events (ts : list Task) :
  cancellations (cancel_events ts) = length (cancel_events ts).
Proof.
  unfold cancellations, cancel_events. induction ts as [|t rest IH]; simpl; [reflexivity|].
  destruct (done t); simpl; now rewrite IH.
Qed.

(** X13.  [cancel_tasks], called as it is declared (with no argument
    besides [self]), returns and leaves every tracked task done: a task
    that was done already is left as it was, every other task is
    cancelled and awaited, one by one, and none is added or dropped.  A
    second call finds nothing to cancel and changes nothing. *)
Theorem cancel_tasks_leaves_all_done (st : state) :
  let after := cancel_tasks [] st in
  fst after = Return tt
  /\ Forall (fun t => done t = true) (tasks (store (snd after)))
  /\ map (fun t => (coro t, stream t)) (tasks (store (snd after))) =
     map (fun t => (coro t, stream t)) (tasks (store st))
  /\ (forall t, In t (tasks (store st)) -> done t = true ->
                In t (tasks (store (snd after))))
  /\ cancellations (trace (snd after)) =
     cancellations (trace st) + length (pending (tasks (store st)))
  /\ cancel_tasks [] (snd after) = (Return tt, snd after).
Proof.
  simpl. split; [reflexivity|].
  split.
  { apply Forall_forall. intros t Hin. apply in_map_iff in Hin as (t0 & <- & _).
    apply cancelled_done. }
  split.
  { rewrite map_map. apply map_ext. intros t. unfold cancelled.
    destruct (done t); reflexivity. }
  split.
  { intros t Hin Hdone. apply in_map_iff. exists t.
    split; [now apply cancelled_of_done | exact Hin]. }
  split.
  { unfold cancellations. rewrite filter_app, length_app.
    fold (cancellations (trace st)). fold (cancellations (cancel_events (tasks (store st)))).
    now rewrite cancellations_events, cancel_events_length. }
  unfold cancel_tasks_body. simpl. f_equal.
  assert (Hmap : map cancelled (map cancelled (tasks (store st))) =
                 map cancelled (tasks (store st))).
  { rewrite map_map. apply map_ext. intros t.
    apply cancelled_of_done, cancelled_done. }
  assert (Hnone : cancel_events (map cancelled (tasks (store st))) = []).
  { clear Hmap. unfold cancel_events.
    induction (tasks (store st)) as [|t rest IH]; simpl; [reflexivity|].
    rewrite cancelled_done. exact IH. }
  rewrite Hmap, Hnone, app_nil_r. reflexivity.
Qed.

(** ** Session assembly when no topic is declared twice *)

Lemma registrations_app (n : nat) (d1 d2 : list (string * handler)) :
  registrations n (d1 ++ d2) =
  registrations n d1 ++ registrations (n + length d1) d2.
Proof.
  revert n. induction d1 as [|[t h] rest IH]; intros n; simpl.
  - now rewrite Nat.add_0_r.
  - rewrite IH. now rewrite Nat.add_succ_r.
Qed.

Lemma registrations_keys (n : nat) (decls : list (string * handler)) :
  map fst (registrations n decls) = map fst decls.
Proof.
  revert n. induction decls as [|[t h] rest IH]; intros n; simpl; [reflexivity|].
  now rewrite IH.
Qed.

Lemma registrations_handlers (n : nat) (decls : list (string * handler))
    (k : string) (o : MQTTTopic) :
  In (k, o) (registrations n decls) ->
  getattr o "handlers" = Some (ListRef handlers_loc).
Proof.
  revert n. induction decls as [|[t h] rest IH]; intros n; simpl; [contradiction|].
  intros [H|H]; [inversion H; reflexivity | eauto].
Qed.

Lemma assembled_refl (st : state) :
  heap (store st) <> [] -> assembled [] st st.
Proof.
  intros H. unfold assembled. simpl.
  rewrite !app_nil_r, Nat.add_0_r. repeat split; auto.
Qed.

Lemma assembled_trans (d1 d2 : list (string * handler)) (st1 st2 st3 : state) :
  assembled d1 st1 st2 -> assembled d2 st2 st3 -> assembled (d1 ++ d2) st1 st3.
Proof.
  intros (Ht1 & Hh1 & Hn1 & Hw1 & Hk1 & Hd1 & Hr1 & Hs1)
         (Ht2 & Hh2 & Hn2 & Hw2 & Hk2 & Hd2 & Hr2 & Hs2).
  unfold assembled.
  rewrite Ht2, Ht1, Hh2, Hh1, Hn2, Hn1, Hk2, Hk1, Hd2, Hd1, Hr2, Hr1, Hs2, Hs1.
  rewrite registrations_app, map_app, length_app, <- !app_assoc, Nat.add_assoc.
  repeat split; auto.
Qed.

(** [handlers()] of one data source: the objects are built, the handlers
    are appended to the list of the class, the topic map is not touched. *)
Lemma construct_all_state (decls : list (string * handler)) (st : state) :
  heap (store st) <> [] ->
  exists st',
    construct_all decls st =
      (Return (map snd (registrations (next_oid (store st)) decls)), st')
    /\ topics (store st') = topics (store st)
    /\ heap_get (heap (store st')) handlers_loc =
       heap_get (heap (store st)) handlers_loc ++ map (fun d => Callable (snd d)) decls
    /\ next_oid (store st') = next_oid (store st) + length decls
    /\ heap (store st') <> []
    /\ tasks (store st') = tasks (store st)
    /\ data_sources (store st') = data_sources (store st)
    /\ trace st' = trace st
    /\ stack st' = stack st.
Proof.
  revert st. induction decls as [|[t h] rest IH]; intros st Hw; simpl.
  - exists st. rewrite app_nil_r, Nat.add_0_r. repeat split; auto.
  - assert (Hlen : handlers_loc < length (heap (store st))).
    { unfold handlers_loc. destruct (heap (store st)); [congruence | simpl; lia]. }
    unfold bind at 1. rewrite MQTTTopic_init_eq.
    match goal with |- exists _, bind _ _ ?s = _ /\ _ =>
      destruct (IH s) as (st' & Hrun & Ht & Hh & Hn & Hw' & Hk & Hd & Hr & Hs) end.
    { simpl. intros H. apply (f_equal (@length _)) in H.
      rewrite heap_set_length in H. simpl in H. lia. }
    simpl in Hrun, Ht, Hh, Hn, Hk, Hd, Hr, Hs.
    rewrite heap_get_set_same in Hh by exact Hlen.
    unfold bind at 1. rewrite Hrun. simpl.
    exists st'. rewrite Ht, Hh, Hn, Hk, Hd, Hr, Hs, <- app_assoc.
    repeat split; auto; lia.
Qed.

(** A fresh object whose topic is no key yet becomes its registration. *)
Lemma register_new (n : nat) (t : string) (st : state) :
  assoc t (topics (store st)) = None ->
  register {| oid := n; inst_dict := [("topic", Str t)] |} st =
  (Return tt,
   {| store :=
        set_topics
          (topics (store st) ++ [(t, {| oid := n; inst_dict := [("topic", Str t)] |})])
          (store st);
      trace := trace st;
      stack := stack st |}).
Proof.
  intros Hnew. unfold register, attr_of, bind, get_store, ret. simpl.
  now rewrite Hnew.
Qed.

(** The registration loop over objects whose topics are new and distinct:
    each one becomes the registration of its topic. *)
Lemma register_all_state (decls : list (string * handler)) (n : nat) (st : state) :
  NoDup (map fst decls) ->
  (forall t, In t (map fst decls) -> assoc t (topics (store st)) = None) ->
  exists st',
    for_each (map snd (registrations n decls)) register st = (Return tt, st')
    /\ topics (store st') = topics (store st) ++ registrations n decls
    /\ heap (store st') = heap (store st)
    /\ next_oid (store st') = next_oid (store st)
    /\ tasks (store st') = tasks (store st)
    /\ data_sources (store st') = data_sources (store st)
    /\ trace st' = trace st
    /\ stack st' = stack st.
Proof.
  revert n st. induction decls as [|[t h] rest IH]; intros n st Hnd Hnew; simpl.
  - exists st. rewrite app_nil_r. repeat split; auto.
  - inversion Hnd as [|? ? Hnotin Hnd']; subst.
    unfold bind at 1. rewrite register_new by (apply Hnew; simpl; auto).
    match goal with |- context [for_each _ register ?s] =>
      destruct (IH (S n) s Hnd') as (st' & Hrun & Ht & Hh & Hn & Hk & Hd & Hr & Hs) end.
    { intros t' Hin. simpl. rewrite assoc_app_r by (apply Hnew; simpl; auto).
      simpl. destruct (String.eqb t' t) eqn:E; [|reflexivity].
      apply String.eqb_eq in E. subst. contradiction. }
    simpl in Ht, Hh, Hn, Hk, Hd, Hr, Hs.
    exists st'. rewrite Hrun, Ht, Hh, Hn, Hk, Hd, Hr, Hs, <- app_assoc.
    repeat split; auto.
Qed.

(** The outer loop, over any list of data sources. *)
Lemma assemble_loop_state (dss : list DataSource) (st : state) :
  heap (store st) <> [] ->
  NoDup (map fst (declared dss)) ->
  (forall t, In t (map fst (declared dss)) -> assoc t (topics (store st)) = None) ->
  exists st',
    for_each dss (fun ds =>
      ds_handlers <- ds_handlers ds ;; for_each ds_handlers register) st =
    (Return tt, st')
    /\ assembled (declared dss) st st'.
Proof.
  revert st. induction dss as [|ds rest IH]; intros st Hw Hnd Hnew.
  - exists st. split; [reflexivity | now apply assembled_refl].
  - unfold declared in *. simpl in Hnd, Hnew. rewrite map_app in Hnd, Hnew.
    destruct (construct_all_state (ds_declares ds) st Hw)
      as (st1 & Hrun1 & Ht1 & Hh1 & Hn1 & Hw1 & Hk1 & Hd1 & Hr1 & Hs1).
    destruct (@register_all_state (ds_declares ds) (next_oid (store st)) st1)
      as (st2 & Hrun2 & Ht2 & Hh2 & Hn2 & Hk2 & Hd2 & Hr2 & Hs2).
    { now apply NoDup_app_remove_r in Hnd. }
    { intros t Hin. rewrite Ht1. apply Hnew, in_or_app. now left. }
    assert (Hone : assembled (ds_declares ds) st st2).
    { unfold assembled. rewrite Ht2, Ht1, Hh2, Hh1, Hn2, Hn1, Hk2, Hk1, Hd2, Hd1,
        Hr2, Hr1, Hs2, Hs1. repeat split; auto. }
    destruct (IH st2) as (st3 & Hrun3 & Hrest).
    { now rewrite Hh2. }
    { now apply NoDup_app_remove_l in Hnd. }
    { intros t Hin. rewrite Ht2, Ht1.
      rewrite assoc_app_r by (apply Hnew, in_or_app; now right).
      destruct (assoc t (registrations (next_oid (store st)) (ds_declares ds)))
        as [o|] eqn:Ho; [|reflexivity].
      exfalso.
      assert (Hkey : In t (map fst (ds_declares ds))).
      { rewrite <- (registrations_keys (next_oid (store st))).
        clear - Ho. induction (registrations _ _) as [|[k v] l IHl]; simpl in *;
          [discriminate|].
        destruct (String.eqb t k) eqn:E; [apply String.eqb_eq in E; auto | auto]. }
      clear - Hnd Hkey Hin.
      induction (map fst (ds_declares ds)) as [|k l IHl]; simpl in *; [contradiction|].
      inversion Hnd as [|? ? Hnotin Hnd']; subst.
      destruct Hkey as [->|Hkey]; [|auto].
      apply Hnotin, in_or_app. now right. }
    exists st3. split.
    + simpl. unfold bind at 1. unfold ds_handlers at 1, bind at 1.
      rewrite Hrun1, Hrun2. exact Hrun3.
    + simpl. exact (assembled_trans Hone Hrest).
Qed.

Lemma assemble_distinct_state (st : state) :
  heap (store st) <> [] ->
  NoDup (map fst (declared (data_sources (store st)))) ->
  (forall t, In t (map fst (declared (data_sources (store st)))) ->
             assoc t (topics (store st)) = None) ->
  exists st',
    assemble st = (Return tt, st')
    /\ assembled (declared (data_sources (store st))) st st'.
Proof.
  intros Hw Hnd Hnew. unfold assemble, bind at 1, get_store.
  now apply assemble_loop_state.
Qed.

(** X14.  Assembly when no topic is declared twice and none is registered
    yet: it returns; every declaration gets a registration of its own, in
    the order of the data sources and of their declarations, appended to
    the topic map; and the handlers all go, in the same order, to the one
    list of the class, so that every registration lists every handler.
    Nothing is logged, no task is created, the exit stack is as before. *)
Theorem assemble_distinct_topics (st : state) :
  heap (store st) <> [] ->
  NoDup (map fst (declared (data_sources (store st)))) ->
  (forall t, In t (map fst (declared (data_sources (store st)))) ->
             assoc t (topics (store st)) = None) ->
  let decls := declared (data_sources (store st)) in
  let after := assemble st in
  fst after = Return tt
  /\ topics (store (snd after)) =
     topics (store st) ++ registrations (next_oid (store st)) decls
  /\ map fst (topics (store (snd after))) =
     map fst (topics (store st)) ++ map fst decls
  /\ (forall k o, In (k, o) (registrations (next_oid (store st)) decls) ->
        attr_iter o "handlers" (snd after) =
        (Return (heap_get (heap (store st)) handlers_loc ++
                 map (fun d => Callable (snd d)) decls), snd after))
  /\ tasks (store (snd after)) = tasks (store st)
  /\ trace (snd after) = trace st
  /\ stack (snd after) = stack st.
Proof.
  intros Hw Hnd Hnew. cbv zeta.
  destruct (assemble_distinct_state st Hw Hnd Hnew)
    as (st' & Hrun & Ht & Hh & Hn & Hw' & Hk & Hd & Hr & Hs).
  rewrite Hrun. simpl. repeat split; auto.
  - now rewrite Ht, map_app, registrations_keys.
  - intros k o Hin. unfold attr_iter, attr_of.
    rewrite (registrations_handlers _ _ _ _ Hin).
    unfold bind, ret, get_store. simpl. now rewrite Hh.
Qed.

(** *** The task loop *)

(** The inner loop over a list of coroutine functions: one task each, in
    order, on the stream of the topic at hand. *)
Lemma create_all (hs : list handler) (k : string) (st : state) :
  for_each (map Callable hs) (fun hl => create_task hl k) st =
  (Return tt,
   {| store := set_tasks (tasks (store st) ++ map (fun h => running h k) hs) (store st);
      trace := trace st ++ map (fun h => CreateTask h k) hs;
      stack := stack st |}).
Proof.
  revert st. induction hs as [|h rest IH]; intros [[hp n ds tp tk] tr sk]; simpl.
  - unfold ret, set_tasks. simpl. now rewrite !app_nil_r.
  - unfold bind at 1. unfold create_task at 1, bind, emit, get_store, put_store. simpl.
    rewrite IH. unfold set_tasks, running. simpl. now rewrite <- !app_assoc.
Qed.

(** The outer loop over topics whose objects find [handlers] on the class:
    every topic gets its stream, pushed on the exit stack, and one task per
    entry of the list of the class. *)
Lemma open_all (hs : list handler) (items : list (string * MQTTTopic))
    (acc : list MQTTTopic) (st : state) :
  heap_get (heap (store st)) handlers_loc = map Callable hs ->
  (forall k o, In (k, o) items -> getattr o "handlers" = Some (ListRef handlers_loc)) ->
  open_topics items acc st =
  (Return (acc ++ map snd items),
   {| store := set_tasks (tasks (store st) ++ spawned hs (map fst items)) (store st);
      trace := trace st ++ opening hs (map fst items);
      stack := rev (map StreamContext (map fst items)) ++ stack st |}).
Proof.
  revert acc st. induction items as [|[k o] rest IH];
    intros acc [[hp n ds tp tk] tr sk] Hheap Hcls; simpl in *.
  - unfold ret, set_tasks. simpl. now rewrite !app_nil_r.
  - unfold bind at 1. unfold emit at 1. unfold bind at 1. unfold push at 1.
    unfold bind at 1. unfold attr_iter, attr_of.
    rewrite (Hcls k o (or_introl eq_refl)).
    unfold bind at 2. unfold ret at 1. unfold bind at 2. unfold get_store, ret. simpl.
    rewrite Hheap, create_all. simpl.
    rewrite IH; [ | exact Hheap | intros k0 o0 Hin; apply (Hcls k0 o0); now right ].
    unfold set_tasks, spawned, opening. simpl.
    now rewrite <- !app_assoc.
Qed.

Lemma spawned_length (hs : list handler) (keys : list string) :
  length (spawned hs keys) = length keys * length hs.
Proof.
  induction keys as [|k rest IH]; simpl; [reflexivity|].
  unfold spawned in *. simpl. now rewrite length_app, length_map, IH.
Qed.

Lemma finish_same_task (w : session) (all : bool) (ts : list Task) :
  map (fun t => (coro t, stream t)) (map (finish w all) ts) =
  map (fun t => (coro t, stream t)) ts.
Proof.
  induction ts as [|t rest IH]; simpl; [reflexivity|]. rewrite IH. f_equal.
  unfold finish. destruct (status t); try reflexivity.
  now destruct (all || finished w (coro t) (stream t)).
Qed.

(** Subscribing and gathering add no event, leave the exit stack alone and
    neither add nor drop a task. *)
Lemma gather_effect (sr : option exn) (w : session) (st : state) :
  let after := snd ((may_raise sr ;;; gather w) st) in
  trace after = trace st
  /\ stack after = stack st
  /\ map (fun t => (coro t, stream t)) (tasks (store after)) =
     map (fun t => (coro t, stream t)) (tasks (store st)).
Proof.
  destruct st as [[hp n ds tp tk] tr sk]. cbv zeta.
  destruct sr as [e|]; [simpl; auto|].
  destruct tk as [|t rest]; [cbv; auto|].
  cbv [bind may_raise ret gather get_store put_store raise]. cbn [store tasks].
  destruct (gather_ends w); cbn [snd trace stack store tasks set_tasks];
    repeat split; auto; now rewrite finish_same_task.
Qed.

(** The block of a session that connects, when no topic is declared twice
    and none of the declared ones is registered yet: its events, its tasks
    and its exit stack. *)
Lemma listen_body_distinct (self : MQTTController) (w : session)
    (hs0 : list handler) (st : state) :
  connect_raises w = None ->
  heap (store st) <> [] ->
  heap_get (heap (store st)) handlers_loc = map Callable hs0 ->
  (forall k o, In (k, o) (topics (store st)) ->
     getattr o "handlers" = Some (ListRef handlers_loc)) ->
  NoDup (map fst (declared (data_sources (store st)))) ->
  (forall t, In t (map fst (declared (data_sources (store st)))) ->
             assoc t (topics (store st)) = None) ->
  let decls := declared (data_sources (store st)) in
  let keys := map fst (topics (store st)) ++ map fst decls in
  let hs := hs0 ++ map snd decls in
  let after := snd (listen_body self w st) in
  trace after =
    trace st ++ Connect (host self) (port self) :: opening hs keys ++
    [Subscribe (map snd (topics (store st)) ++
                map snd (registrations (next_oid (store st)) decls))]
  /\ map (fun t => (coro t, stream t)) (tasks (store after)) =
     map (fun t => (coro t, stream t)) (tasks (store st) ++ spawned hs keys)
  /\ length (tasks (store after)) =
     length (tasks (store st)) + length keys * length hs
  /\ stack after =
     rev (map StreamContext keys) ++
     ClientContext :: AsyncCallback [TasksSet] :: stack st.
Proof.
  intros Hc Hw Hheap Hcls Hnd Hnew. cbv zeta.
  set (st0 := {| store := store st;
                 trace := trace st ++ [Connect (host self) (port self)];
                 stack := ClientContext :: AsyncCallback [TasksSet] :: stack st |}).
  destruct (assemble_distinct_state st0 Hw Hnd Hnew)
    as (st1 & Hrun & Ht & Hh & Hn & Hw1 & Hk & Hd & Hr & Hs).
  simpl in Ht, Hh, Hn, Hk, Hd, Hr, Hs.
  assert (Hbody : listen_body self w st =
    (may_raise (subscribe_raises w) ;;; gather w)
      {| store := set_tasks
           (tasks (store st) ++
            spawned (hs0 ++ map snd (declared (data_sources (store st))))
              (map fst (topics (store st)) ++
               map fst (declared (data_sources (store st)))))
           (store st1);
         trace := trace st ++ Connect (host self) (port self) ::
           opening (hs0 ++ map snd (declared (data_sources (store st))))
             (map fst (topics (store st)) ++
              map fst (declared (data_sources (store st)))) ++
           [Subscribe (map snd (topics (store st)) ++
              map snd (registrations (next_oid (store st))
                         (declared (data_sources (store st)))))];
         stack := rev (map StreamContext
             (map fst (topics (store st)) ++
              map fst (declared (data_sources (store st))))) ++
           ClientContext :: AsyncCallback [TasksSet] :: stack st |}).
  { unfold listen_body. unfold bind at 1. unfold push at 1.
    unfold bind at 1. unfold emit at 1. unfold bind at 1.
    rewrite Hc. unfold may_raise at 1, ret at 1.
    unfold bind at 1. unfold push at 1. unfold bind at 1.
    cbn [store trace stack]. fold st0. rewrite Hrun.
    unfold bind at 1. unfold get_store at 1. unfold bind at 1.
    rewrite (@open_all (hs0 ++ map snd (declared (data_sources (store st))))).
    - unfold bind at 1. unfold emit at 1. simpl.
      rewrite Ht, Hk, Hr, Hs, !map_app, registrations_keys, <- !app_assoc.
      reflexivity.
    - rewrite Hh, Hheap, map_app, map_map. reflexivity.
    - intros k o Hin. rewrite Ht in Hin. apply in_app_or in Hin.
      destruct Hin as [Hin|Hin]; [now apply (Hcls k o)|].
      now apply (registrations_handlers _ _ _ _ Hin). }
  rewrite Hbody.
  match goal with |- context [(may_raise ?sr ;;; gather ?w') ?s] =>
    destruct (gather_effect sr w' s) as (Htr & Hst & Htk) end.
  cbv zeta in Htr, Hst, Htk. simpl in Htr, Hst, Htk.
  rewrite Htr, Hst. repeat split; auto.
  apply (f_equal (@length (handler * string))) in Htk. rewrite !length_map in Htk.
  now rewrite Htk, length_app, spawned_length.
Qed.

(** Leaving the streams, the client and the callback, in that order. *)
Lemma unwind_streams (keys : list string) (pending : option exn) (st : state) :
  unwind (map StreamContext keys ++ [ClientContext; AsyncCallback [TasksSet]]) pending st =
  (Some TypeError,
   {| store := store st;
      trace := trace st ++ map CloseStream keys ++ [Disconnect];
      stack := stack st |}).
Proof.
  revert pending st. induction keys as [|k rest IH]; intros pending [s tr sk]; simpl.
  - reflexivity.
  - rewrite IH. simpl. now rewrite <- app_assoc.
Qed.

(** X15.  A session that connects, when no topic is declared twice and
    none of the declared ones is registered yet.  [listen] opens one stream
    per topic of the map, in the order of registration, and on each of
    them starts one task for EVERY handler of the list of the class, not
    only for the handlers declared for that topic; then it subscribes once,
    with the registration objects.  Either the session goes on, or it is
    left: then the streams are closed, last opened first, the client
    disconnects and [listen] raises [TypeError].  Either way every task
    that was created is still in the task set. *)
Theorem listen_every_handler_on_every_topic (self : MQTTController) (w : session)
    (hs0 : list handler) (st : state) :
  connect_raises w = None ->
  heap (store st) <> [] ->
  heap_get (heap (store st)) handlers_loc = map Callable hs0 ->
  (forall k o, In (k, o) (topics (store st)) ->
     getattr o "handlers" = Some (ListRef handlers_loc)) ->
  NoDup (map fst (declared (data_sources (store st)))) ->
  (forall t, In t (map fst (declared (data_sources (store st)))) ->
             assoc t (topics (store st)) = None) ->
  let decls := declared (data_sources (store st)) in
  let keys := map fst (topics (store st)) ++ map fst decls in
  let hs := hs0 ++ map snd decls in
  let opened :=
    Connect (host self) (port self) :: opening hs keys ++
    [Subscribe (map snd (topics (store st)) ++
                map snd (registrations (next_oid (store st)) decls))] in
  let after := listen self w st in
  (fst after = Blocked /\ trace (snd after) = trace st ++ opened
   \/
   fst after = Raise TypeError
   /\ trace (snd after) =
      trace st ++ opened ++ map CloseStream (rev keys) ++ [Disconnect])
  /\ map (fun t => (coro t, stream t)) (tasks (store (snd after))) =
     map (fun t => (coro t, stream t)) (tasks (store st) ++ spawned hs keys)
  /\ length (tasks (store (snd after))) =
     length (tasks (store st)) + length keys * length hs.
Proof.
  intros Hc Hw Hheap Hcls Hnd Hnew. cbv zeta.
  destruct (@listen_body_distinct self w hs0 (clear_stack st) Hc Hw Hheap Hcls Hnd Hnew)
    as (Htr & Htk & Hlen & Hst).
  cbn [clear_stack store trace stack] in Htr, Htk, Hlen, Hst.
  unfold listen.
  destruct (listen_body self w (clear_stack st)) as [r st1].
  cbn [snd] in Htr, Htk, Hlen, Hst.
  assert (Hout : forall pending,
    unwind (stack st1) pending (clear_stack st1) =
    (Some TypeError,
     {| store := store st1;
        trace := trace st1 ++
          map CloseStream
            (rev (map fst (topics (store st)) ++
                  map fst (declared (data_sources (store st))))) ++ [Disconnect];
        stack := [] |})).
  { intros pending. rewrite Hst, <- map_rev.
    change (?l ++ ClientContext :: AsyncCallback [TasksSet] :: [])
      with (l ++ [ClientContext; AsyncCallback [TasksSet]]).
    now rewrite unwind_streams. }
  destruct r as [[]|e|]; cbv zeta; rewrite ?Hout; cbn [fst snd store trace];
    (split; [ | split; assumption ]).
  - right. split; [reflexivity|]. rewrite Htr.
    now rewrite <- !app_assoc, <- !app_comm_cons, <- !app_assoc.
  - right. split; [reflexivity|]. rewrite Htr.
    now rewrite <- !app_assoc, <- !app_comm_cons, <- !app_assoc.
  - left. split; [reflexivity|]. exact Htr.
Qed.

(** *** The events of a session *)

Lemma in_session_ret {A : Type} (a : A) : in_session (ret a).
Proof. intros st. exists []. now rewrite app_nil_r. Qed.

Lemma in_session_raise {A : Type} (e : exn) : in_session (@raise A e).
Proof. intros st. exists []. now rewrite app_nil_r. Qed.

Lemma in_session_bind {A B : Type} (m : M A) (k : A -> M B) :
  in_session m -> (forall a, in_session (k a)) -> in_session (bind m k).
Proof.
  intros Hm Hk st. unfold bind. destruct (Hm st) as (evs & Ht & Hp).
  destruct (m st) as [[a|e|] st1]; simpl in *; eauto.
  destruct (Hk a st1) as (evs' & Ht' & Hp'). exists (evs ++ evs').
  now rewrite Ht', Ht, app_assoc, forallb_app, Hp, Hp'.
Qed.

Lemma in_session_emit (e : event) : session_event e = true -> in_session (emit e).
Proof. intros He st. exists [e]. simpl. now rewrite He. Qed.

Lemma in_session_push (i : exit_item) : in_session (push i).
Proof. intros st. exists []. simpl. now rewrite app_nil_r. Qed.

Lemma in_session_get_store : in_session get_store.
Proof. intros st. exists []. simpl. now rewrite app_nil_r. Qed.

Lemma in_session_put_store (s : Store) : in_session (put_store s).
Proof. intros st. exists []. simpl. now rewrite app_nil_r. Qed.

Lemma in_session_for_each {A : Type} (xs : list A) (body : A -> M unit) :
  (forall x, in_session (body x)) -> in_session (for_each xs body).
Proof.
  intros Hbody. induction xs as [|x rest IH]; simpl.
  - apply in_session_ret.
  - apply in_session_bind; auto.
Qed.

Create HintDb session.
#[local] Hint Resolve in_session_ret in_session_raise in_session_push
  in_session_get_store in_session_put_store : session.

Ltac in_session :=
  repeat match goal with
  | |- in_session (bind _ _) => apply in_session_bind; [|intros ?]
  | |- in_session (for_each _ _) => apply in_session_for_each; intros ?
  | |- in_session (emit _) => apply in_session_emit; reflexivity
  | |- in_session _ => solve [auto with session]
  end.

Lemma in_session_attr_of (o : MQTTTopic) (name : string) : in_session (attr_of o name).
Proof. unfold attr_of. destruct (getattr o name); in_session. Qed.

#[local] Hint Resolve in_session_attr_of : session.

Lemma in_session_attr_append (o : MQTTTopic) (name : string) (x : pyobj) :
  in_session (attr_append o name x).
Proof. unfold attr_append. in_session. destruct a; in_session. Qed.

Lemma in_session_attr_iter (o : MQTTTopic) (name : string) :
  in_session (attr_iter o name).
Proof. unfold attr_iter. in_session. destruct a; in_session. Qed.

#[local] Hint Resolve in_session_attr_append in_session_attr_iter : session.

Lemma in_session_construct_all (decls : list (string * handler)) :
  in_session (construct_all decls).
Proof.
  induction decls as [|[t h] rest IH]; simpl; [in_session|].
  unfold MQTTTopic_init. in_session.
Qed.

Lemma in_session_register (ds_hl : MQTTTopic) : in_session (register ds_hl).
Proof.
  unfold register. in_session. destruct a as [h|l|key]; in_session.
  match goal with |- in_session (match ?x with _ => _ end) => destruct x end;
    in_session.
Qed.

#[local] Hint Resolve in_session_construct_all in_session_register : session.

Lemma in_session_assemble : in_session assemble.
Proof. unfold assemble, ds_handlers. in_session. Qed.

Lemma in_session_create_task (hl : pyobj) (messages : string) :
  in_session (create_task hl messages).
Proof. destruct hl; simpl; in_session. Qed.

#[local] Hint Resolve in_session_assemble in_session_create_task : session.

Lemma in_session_open_topics (items : list (string * MQTTTopic))
    (acc : list MQTTTopic) :
  in_session (open_topics items acc).
Proof.
  revert acc. induction items as [|[k o] rest IH]; intros acc; simpl; in_session.
Qed.

Lemma in_session_may_raise (r : option exn) : in_session (may_raise r).
Proof. destruct r; simpl; in_session. Qed.

Lemma in_session_gather (w : session) : in_session (gather w).
Proof.
  unfold gather. in_session. destruct (tasks a); [in_session|].
  destruct (gather_ends w); in_session.
Qed.

#[local] Hint Resolve in_session_open_topics in_session_may_raise
  in_session_gather : session.

(** The block, once the connection has been asked for. *)
Lemma in_session_after_connect (w : session) :
  in_session
    (may_raise (connect_raises w) ;;;
     push ClientContext ;;;
     assemble ;;;
     s <- get_store ;;
     all_topics <- open_topics (topics s) [] ;;
     emit (Subscribe all_topics) ;;;
     may_raise (subscribe_raises w) ;;;
     gather w).
Proof. in_session. Qed.

Lemma unwind_contexts_events (items : list exit_item) (pending : option exn)
    (st : state) :
  contexts items = true ->
  exists evs,
    unwind items pending st =
    (pending, {| store := store st; trace := trace st ++ evs; stack := stack st |})
    /\ forallb session_event evs = true.
Proof.
  revert st. induction items as [|i rest IH]; intros st Hc; simpl in *.
  - exists []. rewrite app_nil_r. now destruct st.
  - apply andb_true_iff in Hc as [Hi Hrest].
    destruct i as [args| |topic_string]; [discriminate| |]; simpl;
      match goal with |- context [unwind rest pending ?s] =>
        destruct (IH s Hrest) as (evs & Hrun & Hq) end;
      rewrite Hrun; simpl; eexists (_ :: evs); rewrite <- app_assoc; simpl;
      (split; [reflexivity | exact Hq]).
Qed.

(** One call of [listen]: it asks for one connection, and whatever else it
    adds to the trace is an event of the session. *)
Lemma listen_events (self : MQTTController) (w : session) (st : state) :
  exists evs,
    trace (snd (listen self w st)) =
      trace st ++ Connect (host self) (port self) :: evs
    /\ forallb session_event evs = true.
Proof.
  destruct (listen_body_stack self w st) as (items & evs0 & Hs & Hc & _ & _).
  cbv zeta in Hs. unfold listen.
  assert (Hbody : exists evs,
    trace (snd (listen_body self w (clear_stack st))) =
      trace st ++ Connect (host self) (port self) :: evs
    /\ forallb session_event evs = true).
  { unfold listen_body. unfold bind at 1. unfold push at 1.
    unfold bind at 1. unfold emit at 1.
    match goal with |- context [bind ?m ?k ?s] =>
      destruct (@in_session_after_connect w s) as (evs & Ht & Hp) end.
    exists evs. split; [|exact Hp].
    cbn [clear_stack store trace stack] in *.
    unfold bind in Ht |- *. rewrite Ht. now rewrite <- app_assoc. }
  destruct Hbody as (evs & Ht & Hp).
  destruct (listen_body self w (clear_stack st)) as [r st1]. cbn [snd] in Hs, Ht.
  assert (Hout : forall pending, exists evs',
    unwind (stack st1) pending (clear_stack st1) =
      (Some TypeError,
       {| store := store st1; trace := trace st1 ++ evs'; stack := [] |})
    /\ forallb session_event evs' = true).
  { intros pending. rewrite Hs, unwind_app.
    destruct (unwind_contexts_events items pending (clear_stack st1) Hc)
      as (evs' & Hrun & Hq).
    rewrite Hrun. simpl. exists evs'. auto. }
  destruct r as [[]|e|].
  - destruct (Hout None) as (evs' & Hrun & Hq). rewrite Hrun. cbn [snd trace].
    exists (evs ++ evs'). rewrite Ht, <- app_assoc, forallb_app, Hp, Hq. auto.
  - destruct (Hout (Some e)) as (evs' & Hrun & Hq). rewrite Hrun. cbn [snd trace].
    exists (evs ++ evs'). rewrite Ht, <- app_assoc, forallb_app, Hp, Hq. auto.
  - exists evs. auto.
Qed.

(** X16.  The client task runs one session and no more, whatever the
    broker does and whatever the store holds.  It logs its start and asks
    for one connection; what the broker would do on later attempts plays
    no role.  Either the session never ends and the client stays suspended
    in it, or the client sleeps its five seconds once and dies with
    [TypeError].  In between there are only events of the session: the
    reconnect message is never logged and no task is cancelled. *)
Theorem client_handler_one_session_only (self : MQTTController) (w : session)
    (later : list session) (st : state) :
  let after := client_handler self (w :: later) st in
  after = client_handler self [w] st
  /\ exists evs,
       forallb session_event evs = true
       /\ (fst after = Suspended
           /\ trace (snd after) =
              trace st ++ Log INFO "Starting MQTT client" ::
              Connect (host self) (port self) :: evs
           \/
           fst after = Died TypeError
           /\ trace (snd after) =
              trace st ++ Log INFO "Starting MQTT client" ::
              Connect (host self) (port self) :: evs ++
              [Sleep reconnect_interval]).
Proof.
  cbv zeta. rewrite !client_handler_first_session. split; [reflexivity|].
  destruct (listen_events self w (snd (emit (Log INFO "Starting MQTT client") st)))
    as (evs & Ht & Hp).
  exists evs. split; [exact Hp|].
  destruct (listen_outcome self w (snd (emit (Log INFO "Starting MQTT client") st)))
    as [Hr|Hr];
    destruct (listen self w _) as [r st1]; cbn [fst snd] in *; subst r;
    cbn [fst snd emit trace] in *; [left|right]; (split; [reflexivity|]);
    rewrite Ht; now rewrite <- !app_assoc.
Qed.

(** X14 at two data sources that declare the topics ["A"] and ["B"], right
    after import. *)
Lemma assemble_distinct_topics_witness :
  let after := assemble (Fixtures.fresh [Fixtures.porch; Fixtures.attic]) in
  fst after = Return tt
  /\ topics (store (snd after)) = registrations 0 [("A", "ha"); ("B", "hb")]
  /\ map fst (topics (store (snd after))) = ["A"; "B"]
  /\ (forall k o, In (k, o) (registrations 0 [("A", "ha"); ("B", "hb")]) ->
        attr_iter o "handlers" (snd after) =
        (Return [Callable "ha"; Callable "hb"], snd after))
  /\ tasks (store (snd after)) = []
  /\ trace (snd after) = []
  /\ stack (snd after) = [].
Proof.
  apply (@assemble_distinct_topics (Fixtures.fresh [Fixtures.porch; Fixtures.attic])).
  - discriminate.
  - repeat constructor; simpl; intuition discriminate.
  - intros t _. reflexivity.
Defined.

(** X15 at the same data sources, with a broker that does its part and
    listeners that run on: two streams and four tasks, each handler on
    both topics. *)
Lemma listen_every_handler_on_every_topic_witness :
  let after :=
    listen Fixtures.broker Fixtures.steady_session
      (Fixtures.fresh [Fixtures.porch; Fixtures.attic]) in
  let opened :=
    [Connect "broker.local" 1883;
     FilteredMessages "A"; CreateTask "ha" "A"; CreateTask "hb" "A";
     FilteredMessages "B"; CreateTask "ha" "B"; CreateTask "hb" "B";
     Subscribe (map snd (registrations 0 [("A", "ha"); ("B", "hb")]))] in
  (fst after = Blocked /\ trace (snd after) = opened
   \/
   fst after = Raise TypeError
   /\ trace (snd after) = opened ++ [CloseStream "B"; CloseStream "A"; Disconnect])
  /\ map (fun t => (coro t, stream t)) (tasks (store (snd after))) =
     [("ha", "A"); ("hb", "A"); ("ha", "B"); ("hb", "B")]
  /\ length (tasks (store (snd after))) = 4.
Proof.
  apply (@listen_every_handler_on_every_topic Fixtures.broker Fixtures.steady_session
           [] (Fixtures.fresh [Fixtures.porch; Fixtures.attic])).
  - reflexivity.
  - discriminate.
  - reflexivity.
  - intros k o [].
  - repeat constructor; simpl; intuition discriminate.
  - intros t _. reflexivity.
Defined.

End MQTTMore.
